(** * DataReader_Problem5.1_SignalDetection.py: a shallow embedding

    The script reads [data_SignalDetection.csv] with [np.genfromtxt],
    prints the shape of the matrix, cuts it into five columns and prints
    the first three entries of each.  The embedding follows the script
    statement by statement; the NumPy and Python routines it calls
    ([genfromtxt], [float], basic indexing, [astype(int)], slicing) are
    modelled on text ([list ascii]), on IEEE binary64 values
    ([spec_float] at precision 53) and on lists. *)

From Stdlib Require Import ZArith QArith Qround Qpower Ascii String SpecFloat Lqa.
From stdpp Require Import base option list gmap strings.

Local Open Scope char_scope.
Local Open Scope Z_scope.

(** ** Text *)

Abbreviation text := (list ascii).

Definition LF : ascii := "010".
Definition CR : ascii := "013".

(** Iterating over a file opened in text mode ([newline=None]): a line
    ends at ["\n"], ["\r\n"] or ["\r"], each handed over as ["\n"]; the
    last line has no terminator when the file does not end in one. *)
Fixpoint readlines (s : text) : list text :=
  match s with
  | [] => []
  | c :: s' =>
    if Ascii.eqb c LF then [LF] :: readlines s'
    else if Ascii.eqb c CR then
      match s' with
      | c' :: s'' => if Ascii.eqb c' LF then [LF] :: readlines s''
                     else [LF] :: readlines s'
      | [] => [[LF]]
      end
    else
      match readlines s' with
      | [] => [[c]]
      | l :: ls => (c :: l) :: ls
      end
  end.

Fixpoint lstrip (p : ascii -> bool) (s : text) : text :=
  match s with
  | c :: s' => if p c then lstrip p s' else s
  | [] => []
  end.

Definition rstrip (p : ascii -> bool) (s : text) : text :=
  reverse (lstrip p (reverse s)).

(** [str.strip(chars)] *)
Definition strip (p : ascii -> bool) (s : text) : text :=
  rstrip p (lstrip p s).

(** [s.split(d)[0]]: the text before the first [d]. *)
Fixpoint before (d : ascii) (s : text) : text :=
  match s with
  | [] => []
  | c :: s' => if Ascii.eqb c d then [] else c :: before d s'
  end.

(** [s.split(d)] for a one-character separator: never the empty list. *)
Fixpoint split (d : ascii) (s : text) : list text :=
  match s with
  | [] => [[]]
  | c :: s' =>
    if Ascii.eqb c d then [] :: split d s'
    else match split d s' with
         | [] => [[c]]
         | f :: fs => (c :: f) :: fs
         end
  end.

(** [d.join(fields)] *)
Fixpoint join (d : ascii) (fs : list text) : text :=
  match fs with
  | [] => []
  | [f] => f
  | f :: fs' => f ++ d :: join d fs'
  end.

(** ** Binary64 values *)

Abbreviation float := spec_float.

Definition prec : Z := 53.
Definition emax : Z := 1024.

Definition nan : float := S754_nan.

(** The nearest binary64 (ties to even) of [±m * 10^e], which is what
    Python's correctly rounded [float(str)] returns for a decimal literal. *)
Definition round_decimal (neg : bool) (m e : Z) : float :=
  match m with
  | Zpos p =>
    if 0 <=? e then binary_normalize prec emax (cond_Zopp neg (m * 10 ^ e)) 0 false
    else SFdiv prec emax (S754_finite neg p 0)
                         (S754_finite false (Z.to_pos (10 ^ (- e))) 0)
  | _ => S754_zero neg
  end.

(** Finite values, the rationals they stand for, and truncation. *)
Definition is_finite (x : float) : bool :=
  match x with
  | S754_zero _ | S754_finite _ _ _ => true
  | _ => false
  end.

(** The rational a finite binary64 stands for: [±m * 2^e]. *)
Definition SF2Q (x : float) : Q :=
  match x with
  | S754_finite s m e => (inject_Z (cond_Zopp s (Zpos m)) * 2 ^ e)%Q
  | _ => 0%Q
  end.

(** Truncation toward zero. *)
Definition Qtrunc (q : Q) : Z :=
  if Qle_bool 0 q then Qfloor q else Qceiling q.

Definition is_integer (q : Q) : Prop := exists z : Z, (q == inject_Z z)%Q.

(** ** Python's [float(str)] *)

Definition is_space (c : ascii) : bool :=
  bool_decide (c ∈ [" "; "009"; "010"; "011"; "012"; "013"]).

Definition digit_val (c : ascii) : option Z :=
  let n := Z.of_nat (nat_of_ascii c) in
  if (48 <=? n) && (n <=? 57) then Some (n - 48) else None.

(** [digitpart ::= digit (["_"] digit)*], as the list of its digits. *)
Fixpoint digitpart (s : text) : option (list Z) :=
  match s with
  | [] => None
  | c :: s' =>
    match digit_val c with
    | None => None
    | Some d =>
      match s' with
      | [] => Some [d]
      | c' :: s'' =>
        if Ascii.eqb c' "_" then cons d <$> digitpart s''
        else cons d <$> digitpart s'
      end
    end
  end.

Definition digits_value (ds : list Z) : Z :=
  fold_left (fun acc d => 10 * acc + d) ds 0.

(** The characters of a [digitpart]. *)
Definition digit_or_underscore (c : ascii) : Prop :=
  is_Some (digit_val c) \/ c = "_".

(** An optional leading sign: [(negative, rest)]. *)
Definition take_sign (s : text) : bool * text :=
  match s with
  | c :: s' => if Ascii.eqb c "-" then (true, s')
               else if Ascii.eqb c "+" then (false, s')
               else (false, s)
  | [] => (false, [])
  end.

(** Cut at the first character satisfying [p]: [(before, None)] when
    there is none, else [(before, Some after)]. *)
Fixpoint cut (p : ascii -> bool) (s : text) : text * option text :=
  match s with
  | [] => ([], None)
  | c :: s' =>
    if p c then ([], Some s')
    else let '(a, b) := cut p s' in (c :: a, b)
  end.

(** [number ::= [digitpart] "." digitpart | digitpart ["."]]:
    the digits before and after the point. *)
Definition number (s : text) : option (list Z * list Z) :=
  match cut (Ascii.eqb ".") s with
  | (ip, None) => ds ← digitpart ip; Some (ds, [])
  | (ip, Some fp) =>
    match ip, fp with
    | [], [] => None
    | [], _ => fs ← digitpart fp; Some ([], fs)
    | _, [] => ds ← digitpart ip; Some (ds, [])
    | _, _ => ds ← digitpart ip; fs ← digitpart fp; Some (ds, fs)
    end
  end.

(** [[sign] digitpart], as the integer it writes. *)
Definition signed_int (s : text) : option Z :=
  let '(neg, body) := take_sign s in
  ds ← digitpart body; Some (cond_Zopp neg (digits_value ds)).

(** [exponent ::= ("e" | "E") [sign] digitpart], after the letter. *)
Definition exponent (s : text) : option Z := signed_int s.

(** [floatnumber ::= number [exponent]], as mantissa and decimal exponent. *)
Definition floatnumber (s : text) : option (Z * Z) :=
  let '(num, ex) := cut (fun c => Ascii.eqb c "e" || Ascii.eqb c "E") s in
  '(ds, fs) ← number num;
  e ← match ex with None => Some 0 | Some t => exponent t end;
  Some (digits_value (ds ++ fs), e - Z.of_nat (length fs)).

Definition lower (c : ascii) : ascii :=
  let n := nat_of_ascii c in
  if (65 <=? n)%nat && (n <=? 90)%nat then ascii_of_nat (n + 32) else c.

Definition is_word (w : string) (s : text) : bool :=
  bool_decide (map lower s = list_ascii_of_string w).

(** [float(s)] on ASCII text: [None] stands for [ValueError].  Python
    also reads the blanks and decimal digits of Unicode; text outside
    ASCII is not covered by this definition. *)
Definition py_float (s : text) : option float :=
  let '(neg, body) := take_sign (strip is_space s) in
  if is_word "nan" body then Some nan
  else if is_word "inf" body || is_word "infinity" body
       then Some (S754_infinity neg)
  else '(m, e) ← floatnumber body; Some (round_decimal neg m e).

(** ** NumPy *)

(** The exceptions of the paths modelled here: a file that is not there,
    and what [genfromtxt] and the indexing raise on the text of a file.
    Other errors of opening or decoding a file are outside the model. *)
Inductive exn := FileNotFoundError | ValueError | IndexError.

Inductive result (A : Type) :=
  | Ok (a : A)
  | Raise (e : exn).
Arguments Ok {A} a.
Arguments Raise {A} e.

(** [LineSplitter(delimiter=',', comments='#', autostrip=False)]: drop the
    comment, strip [" \r\n"] at both ends, split at the commas; a blank
    line has no values at all. *)
Definition split_line (line : text) : list text :=
  match strip (fun c => bool_decide (c ∈ [" "; CR; LF])) (before "#" line) with
  | [] => []
  | l => split "," l
  end.

(** [StringConverter(float, locked=True)._loose_call]: [float(value)], and
    the converter's default, [nan], where that raises [ValueError]. *)
Definition loose_call (value : text) : float :=
  default nan (py_float value).

(** A float array of at most two dimensions; a matrix is kept as its rows
    (NumPy builds no ragged one). *)
Inductive ndarray :=
  | Arr0 (x : float)
  | Arr1 (xs : list float)
  | Arr2 (rows : list (list float)).

Definition shape (a : ndarray) : list nat :=
  match a with
  | Arr0 _ => []
  | Arr1 xs => [length xs]
  | Arr2 rows => [length rows; length (hd [] rows)]
  end.

(** [np.array(rows, float)] on a list of equally long tuples. *)
Definition np_array (rows : list (list float)) : ndarray :=
  match rows with
  | [] => Arr1 []
  | _ => Arr2 rows
  end.

(** [np.squeeze]: every axis of length one goes. *)
Definition squeeze (a : ndarray) : ndarray :=
  match a with
  | Arr0 _ => a
  | Arr1 [x] => Arr0 x
  | Arr1 _ => a
  | Arr2 [[x]] => Arr0 x
  | Arr2 [r] => Arr1 r
  | Arr2 rows =>
    if decide (length (hd [] rows) = 1%nat) then Arr1 (concat rows) else a
  end.

(** The first line that has values, and the lines after it; at the end of
    the file the empty line stands in ([StopIteration]). *)
Fixpoint first_valid (fhd : list text) : text * list text :=
  match fhd with
  | [] => ([], [])
  | line :: fhd' =>
    match split_line line with
    | [] => first_valid fhd'
    | _ => (line, fhd')
    end
  end.

(** The main loop: lines without values are skipped, a line with another
    number of values than [nbcols] is noted as invalid (line number,
    number of values), the others are stored. *)
Fixpoint parse_lines (nbcols skip_header i : nat) (lines : list text)
  : list (list text) * list (nat * nat) :=
  match lines with
  | [] => ([], [])
  | line :: lines' =>
    let values := split_line line in
    let '(rows, invalid) := parse_lines nbcols skip_header (S i) lines' in
    match values with
    | [] => (rows, invalid)
    | _ =>
      if decide (length values = nbcols) then (values :: rows, invalid)
      else (rows, (i + skip_header + 1, length values)%nat :: invalid)
    end
  end.

(** [np.genfromtxt(f, delimiter=',', skip_header=n)] on the text of the
    file: [dtype=float], [loose=True], [invalid_raise=True], [ndmin=0]. *)
Definition genfromtxt (content : text) (skip_header : nat) : result ndarray :=
  let fhd := drop skip_header (readlines content) in
  let '(first_line, fhd) := first_valid fhd in
  let nbcols := length (split_line first_line) in
  let '(rows, invalid) := parse_lines nbcols skip_header 0 (first_line :: fhd) in
  match invalid with
  | _ :: _ => Raise ValueError
  | [] => Ok (squeeze (np_array (map (map loose_call) rows)))
  end.

(** Column [k] of the rows of a matrix. *)
Definition column (k : nat) (m : list (list float)) : list float :=
  map (fun r => nth k r nan) m.

(** [a[:, k]]: a column of a matrix; [IndexError] on an array of fewer
    than two dimensions or a column that is not there. *)
Definition getcol (a : ndarray) (k : nat) : result (list float) :=
  match a with
  | Arr2 rows =>
    if decide (k < length (hd [] rows))%nat
    then Ok (column k rows)
    else Raise IndexError
  | _ => Raise IndexError
  end.

Definition int64_min : Z := - 2 ^ 63.
Definition int64_max : Z := 2 ^ 63 - 1.

(** The C conversion of a double to [int64] behind [astype(int)]: the
    fraction is dropped; where the result does not fit, and for [nan],
    C leaves the value open, and x86-64 gives [int64_min]. *)
Definition astype_int (x : float) : Z :=
  match x with
  | S754_zero _ => 0
  | S754_finite s m e =>
    let z := cond_Zopp s (Z.shiftl (Zpos m) e) in
    if (int64_min <=? z) && (z <=? int64_max) then z else int64_min
  | _ => int64_min
  end.

(** ** The process: files and standard output *)

(** What one [print] call writes; the text NumPy formats an array into is
    not modelled, the printed value is recorded instead. *)
Inductive printed :=
  | PShape (msg : string) (shp : list nat)
  | PInts (xs : list Z)
  | PFloats (xs : list float).

Record World := {
  files : gmap string text;
  stdout : list printed
}.

Definition M (A : Type) : Type := World -> result A * World.

Definition ret {A} (a : A) : M A := fun w => (Ok a, w).

Definition bind {A B} (m : M A) (k : A -> M B) : M B :=
  fun w =>
    match m w with
    | (Ok a, w') => k a w'
    | (Raise e, w') => (Raise e, w')
    end.

Notation "x <- m ;; k" := (bind m (fun x => k))
  (at level 100, m at next level, right associativity).
Notation "m ;;; k" := (bind m (fun _ => k))
  (at level 100, right associativity).

Definition lift {A} (r : result A) : M A := fun w => (r, w).

Definition print (p : printed) : M unit :=
  fun w => (Ok tt, {| files := files w; stdout := stdout w ++ [p] |}).

Definition np_genfromtxt (fname : string) (skip_header : nat) : M ndarray :=
  fun w =>
    match files w !! fname with
    | None => (Raise FileNotFoundError, w)
    | Some content => (genfromtxt content skip_header, w)
    end.

(** ** The script *)

(** The variables of the script once line 26 has run. *)
Record DataTable := {
  data : ndarray;
  index : list Z;
  P : list float;
  R : list float;
  freq : list float;
  type : list Z
}.

(** [data.shape[0]] *)
Definition rowCount (tb : DataTable) : nat := hd 0%nat (shape (data tb)).

Definition fname : string := "data_SignalDetection.csv".

(** Lines 19 to 32, in the order of the source. *)
Definition script : M DataTable :=
  data <- np_genfromtxt fname 1 ;;
  print (PShape "  Shape of data: " (shape data)) ;;;
  index <- lift (getcol data 0) ;;
  let index := map astype_int index in
  P <- lift (getcol data 1) ;;
  R <- lift (getcol data 2) ;;
  freq <- lift (getcol data 3) ;;
  type <- lift (getcol data 4) ;;
  let type := map astype_int type in
  print (PInts (take 3 index)) ;;;
  print (PFloats (take 3 P)) ;;;
  print (PFloats (take 3 R)) ;;;
  print (PFloats (take 3 freq)) ;;;
  print (PInts (take 3 type)) ;;;
  ret {| data := data; index := index; P := P; R := R; freq := freq; type := type |}.

(** [load]: lines 19 and 22 to 26. *)
Definition load : M DataTable :=
  data <- np_genfromtxt fname 1 ;;
  index <- lift (getcol data 0) ;;
  let index := map astype_int index in
  P <- lift (getcol data 1) ;;
  R <- lift (getcol data 2) ;;
  freq <- lift (getcol data 3) ;;
  type <- lift (getcol data 4) ;;
  let type := map astype_int type in
  ret {| data := data; index := index; P := P; R := R; freq := freq; type := type |}.

(** [inspect]: lines 20 and 28 to 32. *)
Definition inspect (tb : DataTable) : M unit :=
  print (PShape "  Shape of data: " (shape (data tb))) ;;;
  print (PInts (take 3 (index tb))) ;;;
  print (PFloats (take 3 (P tb))) ;;;
  print (PFloats (take 3 (R tb))) ;;;
  print (PFloats (take 3 (freq tb))) ;;;
  print (PInts (take 3 (type tb))).

(** ** Input files *)

Definition txt (s : string) : text := list_ascii_of_string s.

(** A world whose only file is the data file, nothing printed yet. *)
Definition world_of (content : text) : World :=
  {| files := {[ fname := content ]}; stdout := [] |}.

Definition no_newline (c : ascii) : bool :=
  negb (Ascii.eqb c LF || Ascii.eqb c CR).

(** What a field may not hold: the delimiter, the comment sign, the
    characters stripped from the ends of a line. *)
Definition field_char (c : ascii) : bool :=
  negb (Ascii.eqb c "," || Ascii.eqb c "#" || Ascii.eqb c " "
        || Ascii.eqb c CR || Ascii.eqb c LF).

Definition field (f : text) : bool := forallb field_char f.

(** Text within ASCII. *)
Definition is_ascii (c : ascii) : bool := (nat_of_ascii c <? 128)%nat.

(** A numeric field: a field [float] accepts. *)
Definition numeric (f : text) : bool :=
  field f && bool_decide (is_Some (py_float f)).

(** A data row of [n] fields. *)
Definition row_of (n : nat) (r : list text) : bool :=
  bool_decide (length r = n) && forallb field r.

(** A data row of exactly five numeric fields. *)
Definition numeric_row (r : list text) : bool :=
  bool_decide (length r = 5%nat) && forallb numeric r.

(** The text of a file: the header line and the rows, one per line, with
    or without a newline after the last line. *)
Definition file_text (header : text) (rows : list (list text))
    (final_newline : bool) : text :=
  join LF (header :: map (join ",") rows)
  ++ (if final_newline then [LF] else []).

(** The binary64 value of the literal text at row [i], column [k]. *)
Definition cell (rows : list (list text)) (i k : nat) : option float :=
  r ← rows !! i; tok ← r !! k; py_float tok.

(** The integer written at row [i], column [k], where the text there is
    a plain integer. *)
Definition int_cell (rows : list (list text)) (i k : nat) : option Z :=
  r ← rows !! i; tok ← r !! k; signed_int tok.

(** ** The script on a matrix: what it builds and prints *)

(** The variables lines 22 to 26 build from a matrix. *)
Definition columns_of (m : list (list float)) : DataTable :=
  {| data := Arr2 m;
     index := map astype_int (column 0 m);
     P := column 1 m;
     R := column 2 m;
     freq := column 3 m;
     type := map astype_int (column 4 m) |}.

(** The six [print] calls. *)
Definition printed_of (tb : DataTable) : list printed :=
  [ PShape "  Shape of data: " (shape (data tb));
    PInts (take 3 (index tb));
    PFloats (take 3 (P tb));
    PFloats (take 3 (R tb));
    PFloats (take 3 (freq tb));
    PInts (take 3 (type tb)) ].

Definition write (out : list printed) (w : World) : World :=
  {| files := files w; stdout := stdout w ++ out |}.

(** ** Sample files *)

Definition header_ex : text := txt "idx,P,R,nu,type".

Definition row0 : list text := map txt ["0"; "0.12"; "1.50"; "440.0"; "1"]%string.
Definition row1 : list text := map txt ["1"; "0.34"; "1.55"; "441.2"; "0"]%string.
Definition row2 : list text := map txt ["2"; "0.56"; "1.60"; "442.5"; "-1"]%string.
Definition row3 : list text := map txt ["3"; "0.78"; "1.65"; "443.1"; "1"]%string.
Definition row2_bad : list text := map txt ["2"; "0.56"; "1.60"; "bad"; "-1"]%string.

(** The end-to-end example: a header and four rows. *)
Definition rows_ex : list (list text) := [row0; row1; row2; row3].

(** The same file with the malformed third row. *)
Definition rows_bad : list (list text) := [row0; row1; row2_bad; row3].

Definition file_ex : text := file_text header_ex rows_ex true.
Definition file_bad : text := file_text header_ex rows_bad true.
Definition file_two : text := file_text header_ex [row0; row1] true.
Definition file_one : text := file_text header_ex [row0] true.
Definition file_none : text := file_text header_ex [] true.

(** Two rows with fractions in the index and label columns. *)
Definition rows_frac : list (list text) :=
  [ map txt ["0.5"; "0.12"; "1.50"; "440.0"; "1.9"]%string;
    map txt ["2.7"; "0.34"; "1.55"; "441.2"; "-1.5"]%string ].

Definition file_frac : text := file_text header_ex rows_frac true.

(** The first of these rows alone. *)
Definition file_frac_one : text :=
  file_text header_ex (take 1 rows_frac) true.

(** The tables of the sample files. *)
Definition table_ex : DataTable := columns_of (map (map loose_call) rows_ex).
Definition table_bad : DataTable := columns_of (map (map loose_call) rows_bad).
Definition table_two : DataTable :=
  columns_of (map (map loose_call) [row0; row1]).

(** ** Files line by line *)

(** The values of the lines that have any: what the main loop of
    [genfromtxt] goes through. *)
Fixpoint values_of (lines : list text) : list (list text) :=
  match lines with
  | [] => []
  | line :: lines' =>
    match split_line line with
    | [] => values_of lines'
    | v => v :: values_of lines'
    end
  end.

(** The array [genfromtxt] makes of the values: all lines must have as
    many values as the first. *)
Definition array_of (vals : list (list text)) : result ndarray :=
  if forallb (fun v => bool_decide (length v = length (hd [] vals))) vals
  then Ok (squeeze (np_array (map (map loose_call) vals)))
  else Raise ValueError.

(** [sep.join(lines)] for a separator of any length. *)
Fixpoint intercalate (sep : text) (ls : list text) : text :=
  match ls with
  | [] => []
  | [l] => l
  | l :: ls' => l ++ sep ++ intercalate sep ls'
  end.

(** The text of a file of the given lines, ended by [eol]. *)
Definition lines_text (eol : text) (ls : list text) (final_newline : bool)
  : text :=
  intercalate eol ls ++ (if final_newline then eol else []).

(** The three line terminators of text mode. *)
Definition is_eol (eol : text) : bool :=
  bool_decide (eol ∈ [[LF]; [CR; LF]; [CR]]).

(** A data row of two or more fields. *)
Definition fields_row (r : list text) : bool :=
  bool_decide (2 <= length r)%nat && forallb field r.

(** What a line of a data file may be: a row, with or without a comment
    after it, a comment line, or a line of blanks. *)
Inductive item :=
  | RowLine (r : list text) (comment : option text)
  | CommentLine (c : text)
  | BlankLine (n : nat).

Definition item_line (it : item) : text :=
  match it with
  | RowLine r None => join "," r
  | RowLine r (Some c) => join "," r ++ "#" :: c
  | CommentLine c => "#" :: c
  | BlankLine n => repeat " " n
  end.

Definition item_ok (it : item) : bool :=
  match it with
  | RowLine r None => fields_row r
  | RowLine r (Some c) => fields_row r && forallb no_newline c
  | CommentLine c => forallb no_newline c
  | BlankLine _ => true
  end.

Fixpoint item_rows (its : list item) : list (list text) :=
  match its with
  | [] => []
  | RowLine r _ :: its' => r :: item_rows its'
  | _ :: its' => item_rows its'
  end.

(** A field with blanks before and after it. *)
Definition pad (a b : nat) (f : text) : text :=
  repeat " " a ++ f ++ repeat " " b.

(** A row of fields, each with its numbers of blanks before and after. *)
Definition bare (r : list (nat * text * nat)) : list text :=
  map (fun x => x.1.2) r.

Definition padded (r : list (nat * text * nat)) : list text :=
  map (fun x => pad x.1.1 x.2 x.1.2) r.

(** The characters [LineSplitter] strips from the ends of a line. *)
Definition is_blank (c : ascii) : bool := bool_decide (c ∈ [" "; CR; LF]).

(** [p] is [f] with blanks around it. *)
Definition pads (p f : text) : Prop := exists a b, p = pad a b f.

(** ** More sample files *)

(** The end-to-end example with CR LF line ends. *)
Definition lines_ex : list text := header_ex :: map (join ",") rows_ex.
Definition file_crlf : text := lines_text [CR; LF] lines_ex true.

(** The end-to-end example with comments and a blank line. *)
Definition items_ex : list item :=
  [ CommentLine (txt " control sample"); RowLine row0 None; BlankLine 2;
    RowLine row1 (Some (txt " background")); RowLine row2 None;
    RowLine row3 None ].
Definition file_items : text :=
  lines_text [LF] (header_ex :: map item_line items_ex) true.

(** The end-to-end example with a header that reads as data. *)
Definition file_data_header : text :=
  txt "9,9.9,9.9,9.9,9" ++ LF :: lines_text [LF] (map (join ",") rows_ex) true.

(** A row of four fields among rows of five. *)
Definition rows_ragged : list (list text) :=
  [row0; map txt ["1"; "0.34"; "1.55"; "0"]%string; row2].

(** Rows of four fields, and rows of six. *)
Definition rows_four : list (list text) :=
  [ map txt ["0"; "0.12"; "1.50"; "440.0"]%string;
    map txt ["1"; "0.34"; "1.55"; "441.2"]%string ].
Definition rows_six : list (list text) :=
  [ map txt ["0"; "0.12"; "1.50"; "440.0"; "1"; "7.5"]%string;
    map txt ["1"; "0.34"; "1.55"; "441.2"; "0"; "8.5"]%string ].

(** The first two rows of the example, with blanks around the fields. *)
Definition rows_padded : list (list (nat * text * nat)) :=
  [ [ (1, txt "0", 0); (1, txt "0.12", 1); (0, txt "1.50", 2);
      (1, txt "440.0", 0); (1, txt "1", 1) ]%nat;
    [ (0, txt "1", 0); (2, txt "0.34", 0); (1, txt "1.55", 0);
      (1, txt "441.2", 0); (1, txt "0", 3) ]%nat ].

(** ** Rounding to binary64 *)

(** [2^e] as a rational. *)
Definition bpow (e : Z) : Q := (2 ^ e)%Q.

(** Where [v] lies from [m * 2^e], by the round and sticky bits. *)
Definition located (mrs : shr_record) (e : Z) (v : Q) : Prop :=
  let lo := (inject_Z (shr_m mrs) * bpow e)%Q in
  match shr_r mrs, shr_s mrs with
  | false, false => (v == lo)%Q
  | false, true => (lo < v /\ v < lo + bpow e * (1 # 2))%Q
  | true, false => (v == lo + bpow e * (1 # 2))%Q
  | true, true => (lo + bpow e * (1 # 2) < v /\ v < lo + bpow e)%Q
  end.

(** What a location says of [v] between [m * 2^e] and [(m + 1) * 2^e]. *)
Definition inbetween (m : Z) (l : location) (e : Z) (v : Q) : Prop :=
  located (shr_record_of_loc m l) e v.

(** A mantissa with digits enough: its exponent is at most the one of the
    format. *)
Definition aligned (m e : Z) : Prop := e <= fexp prec emax (Zdigits2 m + e).

(** [rounded neg v x]: [x] is the magnitude [v], of sign [neg], rounded
    to binary64: a valid finite value within half a unit in its last
    place; a zero when [v] is at most half the least subnormal; an
    infinity when [v] is at least the largest finite value and half a
    unit more. *)
Definition rounded (neg : bool) (v : Q) (x : spec_float) : Prop :=
  match x with
  | S754_finite s m e =>
      s = neg /\ valid_binary prec emax x = true /\
      (v - bpow e * (1 # 2) <= inject_Z (Zpos m) * bpow e /\
       inject_Z (Zpos m) * bpow e <= v + bpow e * (1 # 2))%Q
  | S754_zero s =>
      s = neg /\ (v <= bpow (SpecFloat.emin prec emax) * (1 # 2))%Q
  | S754_infinity s =>
      s = neg /\ (bpow emax - bpow (emax - prec) * (1 # 2) <= v)%Q
  | S754_nan => False
  end.

(** ** Decimal literals *)

(** A decimal literal as it is written: an optional sign, the digits
    before the point, the point and the digits after it, and an optional
    exponent (capital letter or not, sign, digits). *)
Inductive sign := NoSign | Plus | Minus.

Record literal := Literal {
  lit_sign : sign;
  lit_int : list nat;
  lit_point : bool;
  lit_frac : list nat;
  lit_exp : option (bool * sign * list nat)
}.

Definition sign_text (s : sign) : text :=
  match s with NoSign => [] | Plus => ["+"] | Minus => ["-"] end.

Definition is_minus (s : sign) : bool :=
  match s with Minus => true | _ => false end.

Definition digit_ascii (d : nat) : ascii := ascii_of_nat (48 + d).

Definition digits_text (ds : list nat) : text := map digit_ascii ds.

Definition exp_text (ex : option (bool * sign * list nat)) : text :=
  match ex with
  | None => []
  | Some (up, s, ds) =>
    (if up : bool then "E" else "e") :: sign_text s ++ digits_text ds
  end.

(** The text of a literal. *)
Definition render (l : literal) : text :=
  sign_text (lit_sign l) ++ digits_text (lit_int l)
  ++ (if lit_point l then "." :: digits_text (lit_frac l) else [])
  ++ exp_text (lit_exp l).

Definition all_digits (ds : list nat) : bool :=
  forallb (fun d => d <? 10)%nat ds.

Definition nonempty {A} (l : list A) : bool :=
  match l with [] => false | _ => true end.

(** Digits only, one at least before or after the point, none after it
    without a point, one at least in an exponent. *)
Definition wf_literal (l : literal) : bool :=
  all_digits (lit_int l) && all_digits (lit_frac l)
  && (nonempty (lit_int l) || nonempty (lit_frac l))
  && (lit_point l || negb (nonempty (lit_frac l)))
  && match lit_exp l with
     | None => true
     | Some (_, _, ds) => all_digits ds && nonempty ds
     end.

(** The number digits write, each at its place. *)
Fixpoint decimal (ds : list nat) : Z :=
  match ds with
  | [] => 0
  | d :: ds' => Z.of_nat d * 10 ^ Z.of_nat (length ds') + decimal ds'
  end.

(** The number digits write after the point. *)
Fixpoint fraction (fs : list nat) : Q :=
  match fs with
  | [] => 0
  | d :: fs' => (inject_Z (Z.of_nat d) + fraction fs') / 10
  end.

Definition exp_value (ex : option (bool * sign * list nat)) : Z :=
  match ex with
  | None => 0
  | Some (_, s, ds) => if is_minus s then - decimal ds else decimal ds
  end.

(** The magnitude a literal writes, and its value. *)
Definition magnitude (l : literal) : Q :=
  (inject_Z (decimal (lit_int l)) + fraction (lit_frac l))
  * 10 ^ exp_value (lit_exp l).

Definition literal_value (l : literal) : Q :=
  if is_minus (lit_sign l) then - magnitude l else magnitude l.

(** An integer literal: digits alone after the sign. *)
Definition is_integer_literal (l : literal) : bool :=
  negb (lit_point l) && negb (nonempty (lit_frac l))
  && match lit_exp l with None => true | Some _ => false end.

(** The rows of the end-to-end example, as literals. *)
Definition lit_nat (ds : list nat) : literal := Literal NoSign ds false [] None.
Definition lit_dec (ip fp : list nat) : literal :=
  Literal NoSign ip true fp None.

Definition lits_ex : list (list literal) :=
  [ [lit_nat [0]; lit_dec [0] [1; 2]; lit_dec [1] [5; 0];
     lit_dec [4; 4; 0] [0]; lit_nat [1]];
    [lit_nat [1]; lit_dec [0] [3; 4]; lit_dec [1] [5; 5];
     lit_dec [4; 4; 1] [2]; lit_nat [0]];
    [lit_nat [2]; lit_dec [0] [5; 6]; lit_dec [1] [6; 0];
     lit_dec [4; 4; 2] [5]; Literal Minus [1] false [] None];
    [lit_nat [3]; lit_dec [0] [7; 8]; lit_dec [1] [6; 5];
     lit_dec [4; 4; 3] [1]; lit_nat [1]] ]%nat.

(** A literal with a sign, a fraction and an exponent: [-12.5E-3]. *)
Definition lit_sci : literal :=
  Literal Minus [1; 2]%nat true [5%nat] (Some (true, Minus, [3%nat])).

(** ** Text lemmas *)

Section Text.

Lemma readlines_cons l rest :
  forallb no_newline l = true ->
  readlines (l ++ LF :: rest) = (l ++ [LF]) :: readlines rest.
Proof.
  induction l as [|c l IH]; simpl; intros H.
  - reflexivity.
  - apply andb_prop in H as [Hc Hl]. unfold no_newline in Hc.
    apply negb_true_iff, orb_false_iff in Hc as [-> ->].
    now rewrite IH.
Qed.

Lemma readlines_last l :
  forallb no_newline l = true -> l <> [] -> readlines l = [l].
Proof.
  induction l as [|c l IH]; simpl; intros H Hne; [done|].
  apply andb_prop in H as [Hc Hl]. unfold no_newline in Hc.
  apply negb_true_iff, orb_false_iff in Hc as [-> ->].
  destruct l as [|c' l']; [done|].
  now rewrite IH.
Qed.

Lemma split_cons d f rest :
  Forall (fun c => Ascii.eqb c d = false) f ->
  split d (f ++ d :: rest) = f :: split d rest.
Proof.
  induction 1 as [|c f Hc _ IH]; simpl.
  - now rewrite Ascii.eqb_refl.
  - now rewrite Hc, IH.
Qed.

Lemma split_last d f :
  Forall (fun c => Ascii.eqb c d = false) f -> split d f = [f].
Proof.
  induction 1 as [|c f Hc _ IH]; simpl; [done|]. now rewrite Hc, IH.
Qed.

Lemma split_join d fs :
  fs <> [] ->
  Forall (Forall (fun c => Ascii.eqb c d = false)) fs ->
  split d (join d fs) = fs.
Proof.
  intros Hne H. induction H as [|f fs Hf Hfs IH]; [done|].
  destruct fs as [|f' fs']; simpl.
  - now apply split_last.
  - rewrite split_cons by done. f_equal. now apply IH.
Qed.

Lemma before_none d l :
  Forall (fun c => Ascii.eqb c d = false) l -> before d l = l.
Proof. induction 1 as [|c l Hc _ IH]; simpl; [done|]. now rewrite Hc, IH. Qed.

Lemma lstrip_keep p l :
  Forall (fun c => p c = false) l -> lstrip p l = l.
Proof. destruct 1 as [|c l Hc _]; simpl; [done|]. now rewrite Hc. Qed.

Lemma strip_keep p l :
  Forall (fun c => p c = false) l -> strip p l = l.
Proof.
  intros H. unfold strip, rstrip. rewrite (lstrip_keep p l) by done.
  rewrite lstrip_keep by now apply Forall_reverse.
  apply reverse_involutive.
Qed.

Lemma strip_keep_snoc p l c :
  Forall (fun c => p c = false) l -> p c = true -> strip p (l ++ [c]) = l.
Proof.
  intros H Hc. unfold strip, rstrip. destruct H as [|c0 l Hc0 Hl]; simpl.
  - now rewrite Hc.
  - rewrite Hc0. change (c0 :: l ++ [c]) with ((c0 :: l) ++ [c]).
    rewrite reverse_snoc. simpl. rewrite Hc.
    rewrite lstrip_keep by (apply Forall_reverse; now constructor).
    apply reverse_involutive.
Qed.

End Text.

(** ** From the text of a file to its rows *)

Section Rows.

Lemma field_char_inv c :
  field_char c = true ->
  Ascii.eqb c "," = false /\ Ascii.eqb c "#" = false /\
  Ascii.eqb c " " = false /\ Ascii.eqb c CR = false /\ Ascii.eqb c LF = false.
Proof.
  unfold field_char. rewrite negb_true_iff, !orb_false_iff. tauto.
Qed.

Lemma field_Forall f (Q : ascii -> Prop) :
  (forall c, field_char c = true -> Q c) -> field f = true -> Forall Q f.
Proof.
  intros HQ. unfold field. induction f as [|c f IH]; simpl; intros H; [done|].
  apply andb_prop in H as [Hc Hf]. constructor; auto.
Qed.

Lemma join_Forall (Q : ascii -> Prop) d fs :
  Q d -> Forall (Forall Q) fs -> Forall Q (join d fs).
Proof.
  intros Hd H. induction H as [|f fs Hf Hfs IH]; [constructor|].
  destruct fs as [|f' fs']; simpl; [done|].
  apply Forall_app; split; [done|]. constructor; [done|]. apply IH.
Qed.

Lemma row_fields_Forall n r (Q : ascii -> Prop) :
  (forall c, field_char c = true -> Q c) ->
  row_of n r = true -> Forall (Forall Q) r.
Proof.
  intros HQ H. unfold row_of in H. apply andb_prop in H as [_ H].
  induction r as [|f r IH]; simpl in H; [constructor|].
  apply andb_prop in H as [Hf Hr]. constructor; [|now apply IH].
  now apply field_Forall.
Qed.

Lemma row_length n r : row_of n r = true -> length r = n.
Proof.
  unfold row_of. intros H. apply andb_prop in H as [H _].
  now apply bool_decide_eq_true in H.
Qed.

Lemma join_nonempty d r : (2 <= length r)%nat -> join d r <> [].
Proof.
  destruct r as [|f [|f' r]]; simpl; try lia. intros _. now destruct f.
Qed.

(** A line of the file that holds a row splits into the row's fields,
    with its newline or, at the end of the file, without. *)
Lemma split_line_row n r :
  (2 <= n)%nat -> row_of n r = true ->
  split_line (join "," r) = r /\ split_line (join "," r ++ [LF]) = r.
Proof.
  intros Hn Hr.
  assert (Hlen : (2 <= length r)%nat) by now rewrite (row_length n r).
  pose proof (join_nonempty "," r Hlen) as Hne.
  assert (Hsharp : Forall (fun c => Ascii.eqb c "#" = false) (join "," r)).
  { apply join_Forall; [done|]. apply (row_fields_Forall n); [|done].
    intros c Hc. now apply field_char_inv in Hc. }
  assert (Hblank : Forall (fun c => bool_decide (c ∈ [" "; CR; LF]) = false)
                     (join "," r)).
  { apply join_Forall; [done|]. apply (row_fields_Forall n); [|done].
    intros c Hc. apply field_char_inv in Hc as (_ & _ & H1 & H2 & H3).
    apply bool_decide_eq_false. rewrite !elem_of_cons, elem_of_nil.
    intros [->|[->|[->|[]]]]; discriminate. }
  assert (Hsplit : split "," (join "," r) = r).
  { apply split_join; [now destruct r|]. apply (row_fields_Forall n); [|done].
    intros c Hc. now apply field_char_inv in Hc. }
  unfold split_line. split.
  - rewrite before_none, strip_keep by done.
    destruct (join "," r); [done|exact Hsplit].
  - rewrite before_none by (apply Forall_app; split; [done|now constructor]).
    rewrite strip_keep_snoc by done.
    destruct (join "," r); [done|exact Hsplit].
Qed.

Lemma forallb_of_Forall {A} (f : A -> bool) l :
  Forall (fun x => f x = true) l -> forallb f l = true.
Proof. induction 1 as [|x l Hx _ IH]; simpl; [done|]. now rewrite Hx. Qed.

Lemma row_line_no_newline n r :
  row_of n r = true -> forallb no_newline (join "," r) = true.
Proof.
  intros Hr. apply forallb_of_Forall.
  apply join_Forall; [done|]. apply (row_fields_Forall n); [|done].
  intros c Hc. apply field_char_inv in Hc as (_ & _ & _ & H2 & H3).
  unfold no_newline. now rewrite H2, H3.
Qed.

(** The lines after the rows' first: each splits into its row. *)
Lemma readlines_rows n (rows : list (list text)) (fnl : bool) :
  (2 <= n)%nat -> forallb (row_of n) rows = true -> rows <> [] ->
  split_line <$>
    readlines (join LF (map (join ",") rows) ++ (if fnl then [LF] else []))
  = rows.
Proof.
  intros Hn. induction rows as [|r rows IH]; [done|]. simpl forallb.
  intros H _. apply andb_prop in H as [Hr Hrows].
  pose proof (split_line_row n r Hn Hr) as [Hs Hs'].
  pose proof (row_line_no_newline n r Hr) as Hnl.
  destruct rows as [|r' rows'].
  - simpl. destruct fnl.
    + rewrite readlines_cons by done. simpl. now rewrite Hs'.
    + rewrite app_nil_r, readlines_last; [simpl; now rewrite Hs|done|].
      apply join_nonempty. now rewrite (row_length n r).
  - change (map (join ",") (r :: r' :: rows'))
      with (join "," r :: map (join ",") (r' :: rows')).
    change (join LF (join "," r :: map (join ",") (r' :: rows')))
      with (join "," r ++ LF :: join LF (map (join ",") (r' :: rows'))).
    rewrite <- app_assoc, <- app_comm_cons.
    rewrite readlines_cons by done.
    rewrite fmap_cons, Hs'. f_equal. now apply IH.
Qed.

(** The lines of a file after its header line. *)
Lemma data_lines n header (rows : list (list text)) (fnl : bool) :
  (2 <= n)%nat -> forallb no_newline header = true ->
  forallb (row_of n) rows = true ->
  split_line <$> drop 1 (readlines (file_text header rows fnl)) = rows.
Proof.
  intros Hn Hh Hrows. unfold file_text. destruct rows as [|r rows].
  - simpl. destruct fnl.
    + now rewrite readlines_cons.
    + rewrite app_nil_r. destruct header as [|c h]; [done|].
      now rewrite readlines_last.
  - change (join LF (header :: map (join ",") (r :: rows)))
      with (header ++ LF :: join LF (map (join ",") (r :: rows))).
    rewrite <- app_assoc, <- app_comm_cons, readlines_cons by done.
    exact (readlines_rows n (r :: rows) fnl Hn Hrows ltac:(done)).
Qed.

Lemma parse_lines_rows nbcols skip i lines rows :
  split_line <$> lines = rows ->
  Forall (fun r => r <> [] /\ length r = nbcols) rows ->
  parse_lines nbcols skip i lines = (rows, []).
Proof.
  revert i rows. induction lines as [|line lines IH]; intros i rows E H.
  - now subst.
  - rewrite fmap_cons in E. subst rows. apply Forall_cons in H as [[Hne Hl] H].
    simpl. rewrite (IH (S i) _ eq_refl H).
    destruct (split_line line) eqn:E; [done|].
    now rewrite decide_True.
Qed.

Lemma rows_Forall n rows :
  (2 <= n)%nat -> forallb (row_of n) rows = true ->
  Forall (fun r : list text => r <> [] /\ length r = n) rows.
Proof.
  intros Hn H. induction rows as [|r rows IH]; [constructor|].
  simpl in H. apply andb_prop in H as [Hr H]. constructor; [|auto].
  apply row_length in Hr. split; [|done]. destruct r; simpl in *; [lia|done].
Qed.

(** [genfromtxt] on a file of rows of [n >= 2] fields each: the matrix of
    the fields' values, squeezed. *)
Lemma genfromtxt_rows n header (rows : list (list text)) (fnl : bool) :
  (2 <= n)%nat -> forallb no_newline header = true ->
  forallb (row_of n) rows = true ->
  genfromtxt (file_text header rows fnl) 1
  = Ok (squeeze (np_array (map (map loose_call) rows))).
Proof.
  intros Hn Hh Hrows. unfold genfromtxt.
  pose proof (data_lines n header rows fnl Hn Hh Hrows) as E.
  pose proof (rows_Forall n rows Hn Hrows) as HF.
  destruct (drop 1 (readlines (file_text header rows fnl))) as [|line lines].
  - simpl in E. subst rows. reflexivity.
  - rewrite fmap_cons in E. destruct rows as [|r rows]; [done|].
    injection E as E1 E2. apply Forall_cons in HF as [[Hne Hl] HF].
    simpl first_valid. rewrite E1. destruct r as [|f r]; [done|].
    rewrite (parse_lines_rows _ 1 0 (line :: lines) ((f :: r) :: rows)).
    + reflexivity.
    + now rewrite fmap_cons, E1, E2.
    + rewrite E1, Hl. now constructor.
Qed.

End Rows.

(** ** Binary64 lemmas *)

Section Floats.

Lemma Qtrunc_comp q q' : (q == q')%Q -> Qtrunc q = Qtrunc q'.
Proof.
  intros E. unfold Qtrunc.
  rewrite (Qleb_comp 0%Q 0%Q (Qeq_refl 0%Q) q q' E).
  now rewrite (Qfloor_comp q q' E), (Qceiling_comp q q' E).
Qed.

Lemma SF2Q_exp_nonneg s m e :
  0 <= e -> (SF2Q (S754_finite s m e) == inject_Z (cond_Zopp s (Zpos m) * 2 ^ e))%Q.
Proof.
  intros He. simpl. rewrite inject_Z_mult, Zpower_Qpower by done. reflexivity.
Qed.

Lemma SF2Q_exp_neg s m p :
  (SF2Q (S754_finite s m (Zneg p)) == cond_Zopp s (Zpos m) # (2 ^ p)%positive)%Q.
Proof.
  unfold SF2Q. change (Zneg p) with (- Zpos p). rewrite Qpower_opp.
  change 2%Q with (inject_Z 2). rewrite <- Zpower_Qpower by done.
  rewrite Qmake_Qdiv.
  unfold Qdiv. now rewrite Pos2Z.inj_pow.
Qed.

Lemma Qtrunc_Z z : Qtrunc (inject_Z z) = z.
Proof. unfold Qtrunc. destruct (Qle_bool 0 (inject_Z z)); [apply Qfloor_Z|apply Qceiling_Z]. Qed.

Lemma Qtrunc_frac s m d :
  Qtrunc (cond_Zopp s (Zpos m) # d) = cond_Zopp s (Zpos m / Zpos d).
Proof.
  destruct s; unfold Qtrunc; simpl.
  - unfold Qceiling, Qfloor. simpl. reflexivity.
  - reflexivity.
Qed.

(** The value [astype_int] takes before its range check. *)
Lemma trunc_shiftl s m e :
  Qtrunc (SF2Q (S754_finite s m e)) = cond_Zopp s (Z.shiftl (Zpos m) e).
Proof.
  destruct e as [|p|p].
  - rewrite (Qtrunc_comp _ _ (SF2Q_exp_nonneg s m 0 ltac:(lia))), Qtrunc_Z.
    now rewrite Z.mul_1_r.
  - rewrite (Qtrunc_comp _ _ (SF2Q_exp_nonneg s m (Zpos p) ltac:(lia))), Qtrunc_Z.
    rewrite Z.shiftl_mul_pow2 by lia. now destruct s; simpl; lia.
  - rewrite (Qtrunc_comp _ _ (SF2Q_exp_neg s m p)), Qtrunc_frac.
    change (Z.shiftl (Zpos m) (Zneg p)) with (Z.shiftr (Zpos m) (Zpos p)).
    rewrite Z.shiftr_div_pow2 by lia. now rewrite Pos2Z.inj_pow.
Qed.

Lemma astype_int_trunc x :
  is_finite x = true ->
  int64_min <= Qtrunc (SF2Q x) <= int64_max ->
  astype_int x = Qtrunc (SF2Q x).
Proof.
  destruct x as [s|s| |s m e]; try discriminate; intros _ H.
  - reflexivity.
  - rewrite trunc_shiftl in *. unfold astype_int.
    destruct (Z.leb_spec int64_min (cond_Zopp s (Z.shiftl (Zpos m) e))); [|lia].
    destruct (Z.leb_spec (cond_Zopp s (Z.shiftl (Zpos m) e)) int64_max); [|lia].
    reflexivity.
Qed.

(** ** The mantissa of a rounded value *)

Lemma digits2_bound p : Zpos p < 2 ^ Zpos (digits2_pos p).
Proof.
  induction p as [p IH|p IH|]; simpl digits2_pos;
    rewrite ?Pos2Z.inj_succ, ?Z.pow_succ_r by lia; lia.
Qed.

Lemma Zdigits2_bound m : 0 <= m -> m < 2 ^ Zdigits2 m.
Proof.
  destruct m as [|p|p]; simpl; [lia| |lia]. intros _. apply digits2_bound.
Qed.

Lemma shr_1_m mrs : 0 <= shr_m mrs -> shr_m (shr_1 mrs) = shr_m mrs / 2.
Proof.
  destruct mrs as [m r s]. rewrite <- Z.div2_div.
  destruct m as [|[p|p|]|p]; simpl; (reflexivity || lia).
Qed.

Lemma iter_pos_shr_1 p mrs :
  0 <= shr_m mrs ->
  shr_m (SpecFloat.iter_pos shr_1 p mrs) = shr_m mrs / 2 ^ Zpos p.
Proof.
  revert mrs. induction p as [p IH|p IH|]; intros mrs H.
  - change (SpecFloat.iter_pos shr_1 p~1 mrs)
      with (SpecFloat.iter_pos shr_1 p (SpecFloat.iter_pos shr_1 p (shr_1 mrs))).
    assert (H1 : 0 <= shr_m (shr_1 mrs))
      by (rewrite shr_1_m by done; now apply Z.div_pos).
    assert (H2 : 0 <= shr_m (SpecFloat.iter_pos shr_1 p (shr_1 mrs)))
      by (rewrite IH by done; apply Z.div_pos; lia).
    rewrite IH, IH, shr_1_m by done.
    rewrite !Z.div_div by lia. f_equal.
    replace (Zpos p~1) with (Zpos p + Zpos p + 1) by lia.
    rewrite !Z.pow_add_r by lia. lia.
  - change (SpecFloat.iter_pos shr_1 p~0 mrs)
      with (SpecFloat.iter_pos shr_1 p (SpecFloat.iter_pos shr_1 p mrs)).
    assert (H2 : 0 <= shr_m (SpecFloat.iter_pos shr_1 p mrs))
      by (rewrite IH by done; apply Z.div_pos; lia).
    rewrite IH, IH by done. rewrite Z.div_div by lia. f_equal.
    replace (Zpos p~0) with (Zpos p + Zpos p) by lia.
    now rewrite Z.pow_add_r by lia.
  - change (SpecFloat.iter_pos shr_1 1 mrs) with (shr_1 mrs).
    now rewrite shr_1_m.
Qed.

Lemma shr_record_of_loc_m m l : shr_m (shr_record_of_loc m l) = m.
Proof. now destruct l as [|[]]. Qed.

Lemma shr_fexp_bound m e l mrs e' :
  0 <= m -> shr_fexp prec emax m e l = (mrs, e') ->
  0 <= shr_m mrs < 2 ^ prec.
Proof.
  intros Hm. unfold shr_fexp, shr.
  pose proof (Zdigits2_bound m Hm) as Hd.
  assert (Hd0 : 0 <= Zdigits2 m) by (destruct m; simpl; lia).
  set (n := fexp prec emax (Zdigits2 m + e) - e).
  assert (Hn : Zdigits2 m - prec <= n) by (unfold n, fexp; lia).
  destruct n as [|p|p] eqn:En; intros [= <- _];
    rewrite ?iter_pos_shr_1, shr_record_of_loc_m
      by now rewrite shr_record_of_loc_m.
  - split; [done|]. eapply Z.lt_le_trans; [exact Hd|].
    apply Z.pow_le_mono_r; lia.
  - split; [apply Z.div_pos; lia|].
    apply Z.div_lt_upper_bound; [lia|]. rewrite <- Z.pow_add_r by (unfold prec; lia).
    eapply Z.lt_le_trans; [exact Hd|]. apply Z.pow_le_mono_r; lia.
  - split; [done|]. eapply Z.lt_le_trans; [exact Hd|].
    apply Z.pow_le_mono_r; lia.
Qed.

Lemma round_nearest_even_nonneg m l : 0 <= m -> 0 <= round_nearest_even m l.
Proof.
  intros H. destruct l as [|[]]; simpl; try lia. destruct (Z.even m); lia.
Qed.

(** A finite result of the rounding has a mantissa of at most 53 bits. *)
Lemma binary_round_aux_bound sx mx ex lx s m e :
  0 <= mx ->
  binary_round_aux prec emax sx mx ex lx = S754_finite s m e ->
  Zpos m < 2 ^ prec.
Proof.
  intros Hmx. unfold binary_round_aux.
  destruct (shr_fexp prec emax mx ex lx) as [mrs' e'] eqn:E1.
  destruct (shr_fexp prec emax _ e' loc_Exact) as [mrs'' e''] eqn:E2.
  apply shr_fexp_bound in E1; [|done].
  apply shr_fexp_bound in E2; [|apply round_nearest_even_nonneg; lia].
  destruct (shr_m mrs'') as [|p|p]; try discriminate.
  destruct (e'' <=? emax - prec); [|discriminate].
  intros [= _ <- _]. lia.
Qed.

Lemma round_decimal_bound neg m e s mx ex :
  round_decimal neg m e = S754_finite s mx ex -> Zpos mx < 2 ^ prec.
Proof.
  unfold round_decimal. destruct m as [|p|p]; try discriminate.
  destruct (0 <=? e).
  - unfold binary_normalize.
    destruct (cond_Zopp neg (Zpos p * 10 ^ e)) as [|q|q]; try discriminate;
      unfold binary_round;
      destruct (shl_align q 0 _) as [mz ez];
      apply binary_round_aux_bound; lia.
  - unfold SFdiv, SFdiv_core_binary.
    set (d := Z.to_pos (10 ^ (- e))).
    set (m' := match _ - _ with Z0 => Zpos p | Zpos _ => _ | Zneg _ => 0 end).
    assert (Hm' : 0 <= m').
    { subst m'. destruct (_ - _); [lia| |lia]. apply Z.shiftl_nonneg. lia. }
    destruct (Z.div_eucl m' (Zpos d)) as [q r] eqn:E.
    apply binary_round_aux_bound.
    assert (Hq : q = m' / Zpos d) by (unfold Z.div; now rewrite E).
    rewrite Hq. apply Z.div_pos; lia.
Qed.

(** Every finite value [float] returns has a mantissa of at most 53 bits. *)
Lemma py_float_bound tok s m e :
  py_float tok = Some (S754_finite s m e) -> Zpos m < 2 ^ prec.
Proof.
  unfold py_float. destruct (take_sign _) as [neg body].
  destruct (is_word "nan" body); [discriminate|].
  destruct (is_word "inf" body || is_word "infinity" body); [discriminate|].
  destruct (floatnumber body) as [[mz ez]|]; [|discriminate].
  simpl. intros [= H]. now apply round_decimal_bound in H.
Qed.

(** A binary64 value that is no integer lies well within [int64]. *)
Lemma non_integer_range s m e :
  Zpos m < 2 ^ prec -> ~ is_integer (SF2Q (S754_finite s m e)) ->
  int64_min <= Qtrunc (SF2Q (S754_finite s m e)) <= int64_max.
Proof.
  intros Hm Hni. destruct (Z.le_gt_cases 0 e) as [He|He].
  - destruct Hni. eexists. now apply SF2Q_exp_nonneg.
  - rewrite trunc_shiftl. destruct e as [|p|p]; try lia.
    change (Z.shiftl (Zpos m) (Zneg p)) with (Z.shiftr (Zpos m) (Zpos p)).
    rewrite Z.shiftr_div_pow2 by lia.
    assert (0 <= Zpos m / 2 ^ Zpos p <= Zpos m).
    { split; [apply Z.div_pos; lia|].
      apply Z.div_le_upper_bound; [lia|]. nia. }
    unfold int64_min, int64_max, prec in *. destruct s; simpl; lia.
Qed.

(** ** Integers through [float] and back *)

Lemma digits2_lower p : 2 ^ (Zpos (digits2_pos p) - 1) <= Zpos p.
Proof.
  induction p as [p IH|p IH|]; simpl digits2_pos; [| |simpl; lia];
    rewrite Pos2Z.inj_succ;
    replace (Z.succ (Zpos (digits2_pos p)) - 1)
      with (Z.succ (Zpos (digits2_pos p) - 1)) by lia;
    rewrite Z.pow_succ_r by lia; lia.
Qed.

Lemma iter_xO_val p k : Zpos (Pos.iter xO p k) = Zpos p * 2 ^ Zpos k.
Proof.
  induction k as [|k IH] using Pos.peano_ind.
  - simpl. lia.
  - rewrite Pos.iter_succ, Pos2Z.inj_xO, IH, Pos2Z.inj_succ, Z.pow_succ_r by lia.
    lia.
Qed.

Lemma iter_xO_digits p k :
  Zpos (digits2_pos (Pos.iter xO p k)) = Zpos (digits2_pos p) + Zpos k.
Proof.
  induction k as [|k IH] using Pos.peano_ind.
  - simpl. lia.
  - rewrite Pos.iter_succ. simpl digits2_pos. rewrite Pos2Z.inj_succ, IH. lia.
Qed.

(** An integer below 2^53 is a binary64 value: rounding keeps it. *)
Lemma binary_round_small s p :
  Zpos p < 2 ^ prec ->
  exists m k, binary_round prec emax s p 0 = S754_finite s m (- k) /\
    0 <= k /\ Zpos m = Zpos p * 2 ^ k.
Proof.
  intros Hp. pose proof (digits2_lower p) as Hlow.
  set (d := Zpos (digits2_pos p)) in *.
  assert (Hd : 1 <= d <= prec).
  { split; [subst d; lia|]. destruct (Z.le_gt_cases d prec) as [|Hgt]; [done|].
    assert (2 ^ prec <= 2 ^ (d - 1)) by (apply Z.pow_le_mono_r; lia). lia. }
  unfold prec in *.
  assert (Hfexp : forall x, 1 <= x <= 53 -> fexp 53 emax x = x - 53)
    by (intros x Hx; unfold fexp, SpecFloat.emin, emax; lia).
  unfold binary_round. rewrite Z.add_0_r. fold d. rewrite Hfexp by done.
  assert (Haux : forall mz ez, Zpos (digits2_pos mz) = 53 -> -52 <= ez <= 0 ->
            binary_round_aux 53 emax s (Zpos mz) ez loc_Exact
            = S754_finite s mz ez).
  { intros mz ez Hdig Hez. unfold binary_round_aux, shr_fexp. simpl Zdigits2.
    rewrite Hdig. unfold fexp, SpecFloat.emin, emax.
    replace (Z.max (53 + ez - 53) (3 - 1024 - 53) - ez) with 0 by lia.
    simpl. rewrite Hdig.
    replace (Z.max (53 + ez - 53) (3 - 1024 - 53) - ez) with 0 by lia.
    simpl. destruct (Z.leb_spec ez (1024 - 53)); [done|lia]. }
  unfold shl_align. destruct (d - 53 - 0) as [|q|q] eqn:E; try lia.
  - exists p, 0. rewrite Haux by (fold d; lia).
    repeat split; [done|lia].
  - exists (Pos.iter xO p q), (Zpos q).
    rewrite Haux; [|rewrite iter_xO_digits; fold d; lia|lia].
    replace (d - 53) with (- Zpos q) by lia.
    repeat split; [lia|apply iter_xO_val].
Qed.

Lemma astype_int_small s p :
  Zpos p < 2 ^ prec ->
  astype_int (binary_round prec emax s p 0) = cond_Zopp s (Zpos p).
Proof.
  intros Hp. destruct (binary_round_small s p Hp) as (m & k & -> & Hk & Hm).
  unfold astype_int.
  assert (E : Z.shiftl (Zpos m) (- k) = Zpos p).
  { rewrite Z.shiftl_opp_r, Z.shiftr_div_pow2, Hm by lia.
    apply Z.div_mul. apply Z.pow_nonzero; lia. }
  rewrite E. unfold prec, int64_min, int64_max in *.
  destruct (Z.leb_spec (- 2 ^ 63) (cond_Zopp s (Zpos p)));
    destruct (Z.leb_spec (cond_Zopp s (Zpos p)) (2 ^ 63 - 1));
    simpl; try done; destruct s; simpl in *; lia.
Qed.

(** What a digit cannot be. *)
Lemma digit_char c d :
  digit_val c = Some d ->
  0 <= d <= 9 /\ is_space c = false /\ lower c = c /\
  Ascii.eqb "." c = false /\ (Ascii.eqb c "e" || Ascii.eqb c "E") = false /\
  Ascii.eqb c "-" = false /\ Ascii.eqb c "+" = false /\
  c <> "n" /\ c <> "i".
Proof.
  destruct c as [b0 b1 b2 b3 b4 b5 b6 b7].
  destruct b0, b1, b2, b3, b4, b5, b6, b7; try discriminate;
    intros [= <-]; repeat split; (reflexivity || lia || discriminate).
Qed.

Lemma digitpart_inv s ds :
  digitpart s = Some ds ->
  Forall digit_or_underscore s /\ Forall (fun d => 0 <= d <= 9) ds /\
  exists c s', s = c :: s' /\ is_Some (digit_val c).
Proof.
  remember (length s) as n eqn:En. revert s ds En.
  induction n as [n IH] using lt_wf_ind. intros s ds En.
  destruct s as [|c s']; [discriminate|]. simpl.
  destruct (digit_val c) as [d|] eqn:Hc; [|discriminate].
  assert (Hd : 0 <= d <= 9) by now apply digit_char in Hc.
  assert (Hfirst : exists c0 s0, c :: s' = c0 :: s0 /\ is_Some (digit_val c0))
    by (exists c, s'; rewrite Hc; eauto).
  destruct s' as [|c' s''].
  - intros [= <-]. repeat split; [|by (constructor; [done|constructor])|done].
    constructor; [left; rewrite Hc; eauto|constructor].
  - destruct (Ascii.eqb c' "_") eqn:E.
    + apply Ascii.eqb_eq in E as ->.
      destruct (digitpart s'') as [ds'|] eqn:Hs; [|discriminate].
      intros [= <-].
      destruct (IH (length s'') ltac:(simpl in En; lia) s'' ds' eq_refl Hs)
        as (H1 & H2 & _).
      repeat split; [|by constructor|done].
      constructor; [left; rewrite Hc; eauto|].
      constructor; [now right|done].
    + destruct (digitpart (c' :: s'')) as [ds'|] eqn:Hs; [|discriminate].
      intros [= <-].
      destruct (IH (length (c' :: s'')) ltac:(simpl in En |- *; lia)
                  (c' :: s'') ds' eq_refl Hs) as (H1 & H2 & _).
      repeat split; [|by constructor|done].
      constructor; [left; rewrite Hc; eauto|done].
Qed.

Lemma digit_or_underscore_char c :
  digit_or_underscore c ->
  is_space c = false /\ Ascii.eqb "." c = false /\
  (Ascii.eqb c "e" || Ascii.eqb c "E") = false.
Proof.
  intros [[d Hd]| ->]; [|done]. apply digit_char in Hd. tauto.
Qed.

Lemma cut_none p s :
  Forall (fun c => p c = false) s -> cut p s = (s, None).
Proof. induction 1 as [|c s Hc _ IH]; simpl; [done|]. now rewrite Hc, IH. Qed.

Lemma digits_fold_nonneg ds acc :
  0 <= acc -> Forall (fun d => 0 <= d <= 9) ds ->
  0 <= fold_left (fun acc d => 10 * acc + d) ds acc.
Proof.
  intros Hacc H. revert acc Hacc.
  induction H as [|d ds Hd _ IH]; intros acc Hacc; simpl; [done|].
  apply IH. lia.
Qed.

Lemma digits_value_nonneg ds :
  Forall (fun d => 0 <= d <= 9) ds -> 0 <= digits_value ds.
Proof. now apply digits_fold_nonneg. Qed.

(** From the characters of a [digitpart] to what they are not. *)
Ltac chars_from H :=
  eapply Forall_impl; [exact H|];
  let c := fresh "c" in let Hc := fresh "Hc" in
  intros c Hc; now apply digit_or_underscore_char in Hc.

Lemma take_sign_chars (Q : ascii -> Prop) tok neg body :
  take_sign tok = (neg, body) -> Forall Q body -> Q "-" -> Q "+" ->
  Forall Q tok.
Proof.
  unfold take_sign. destruct tok as [|c0 tok]; [constructor|].
  destruct (Ascii.eqb c0 "-") eqn:E1; [|destruct (Ascii.eqb c0 "+") eqn:E2].
  - apply Ascii.eqb_eq in E1 as ->. intros [= _ <-]. now constructor.
  - apply Ascii.eqb_eq in E2 as ->. intros [= _ <-]. now constructor.
  - now intros [= _ <-].
Qed.

(** [float] on a plain integer: the very integer comes back from the cast
    wherever a binary64 holds it exactly, below 2^53. *)
Lemma py_float_signed_int tok n :
  signed_int tok = Some n ->
  exists x, py_float tok = Some x /\
    (Z.abs n < 2 ^ prec -> astype_int x = n).
Proof.
  unfold signed_int. destruct (take_sign tok) as [neg body] eqn:Hsign.
  destruct (digitpart body) as [ds|] eqn:Hds; [|discriminate].
  simpl. intros [= <-].
  destruct (digitpart_inv body ds Hds) as (Hchars & Hdigits & c & s' & -> & [d Hc]).
  pose proof (digit_char c d Hc)
    as (_ & Hsp & Hlow & _ & _ & Hminus & Hplus & Hn & Hi).
  assert (Hspace : Forall (fun c => is_space c = false) tok).
  { apply (take_sign_chars _ tok neg (c :: s')); [done| |done|done].
    chars_from Hchars. }
  unfold py_float. rewrite strip_keep, Hsign by done.
  assert (Hword : forall w0 w, is_word (String w0 w) (c :: s') = true -> c = w0).
  { intros w0 w H. apply bool_decide_eq_true in H. simpl in H.
    injection H as H _. now rewrite Hlow in H. }
  destruct (is_word "nan" (c :: s')) eqn:E1; [now apply Hword in E1|].
  destruct (is_word "inf" (c :: s')) eqn:E2; [now apply Hword in E2|].
  destruct (is_word "infinity" (c :: s')) eqn:E3; [now apply Hword in E3|].
  simpl orb. cbv iota.
  unfold floatnumber. rewrite cut_none
    by (chars_from Hchars).
  unfold number. rewrite cut_none
    by (chars_from Hchars).
  rewrite Hds. simpl. rewrite app_nil_r.
  eexists. split; [reflexivity|]. intros Hn53.
  pose proof (digits_value_nonneg ds Hdigits) as Hnn.
  unfold round_decimal. destruct (digits_value ds) as [|p|p] eqn:Ev; [| |lia].
  - now destruct neg.
  - change (0 - Z.of_nat 0) with 0. simpl Z.leb. cbv iota.
    rewrite Z.pow_0_r, Z.mul_1_r. unfold binary_normalize.
    assert (Hp : Zpos p < 2 ^ prec) by (destruct neg; simpl in Hn53; lia).
    destruct neg; [exact (astype_int_small true p Hp)|exact (astype_int_small false p Hp)].
Qed.

End Floats.

(** ** [round_decimal] rounds to nearest *)

Section Rounding.

Lemma bpow_pos e : (0 < bpow e)%Q.
Proof. apply Qpower_0_lt. reflexivity. Qed.

Lemma bpow_succ e : (bpow (e + 1) == 2 * bpow e)%Q.
Proof.
  unfold bpow. rewrite Qpower_plus by discriminate. simpl (2 ^ 1)%Q. ring.
Qed.

Lemma bpow_add e n : (bpow (e + n) == bpow e * bpow n)%Q.
Proof. unfold bpow. now rewrite Qpower_plus by discriminate. Qed.

Lemma bpow_inject n : 0 <= n -> (bpow n == inject_Z (2 ^ n))%Q.
Proof. intros H. unfold bpow. now rewrite Zpower_Qpower. Qed.

Lemma located_shr_1 mrs e v :
  0 <= shr_m mrs -> located mrs e v -> located (shr_1 mrs) (e + 1) v.
Proof.
  destruct mrs as [m r s]. unfold located. simpl shr_m. intros Hm.
  pose proof (bpow_pos e) as Ht. pose proof (bpow_succ e) as Hs.
  set (t := bpow e) in *. set (t' := bpow (e + 1)) in *.
  destruct m as [|[p|p|]|p]; try lia; simpl;
    try (rewrite Pos2Z.inj_xI); try (rewrite Pos2Z.inj_xO);
    rewrite ?inject_Z_plus, ?inject_Z_mult;
    change (inject_Z 2) with 2%Q; change (inject_Z 1) with 1%Q;
    change (inject_Z 0) with 0%Q;
    try set (a := inject_Z (Z.pos p));
    destruct r, s; simpl; intros H; nra.
Qed.

Lemma bpow_le e e' : e <= e' -> (bpow e <= bpow e')%Q.
Proof.
  intros H. replace e' with (e + (e' - e)) by lia. rewrite bpow_add.
  assert (H1 : (1 <= bpow (e' - e))%Q).
  { unfold bpow. apply Qpower_1_le; [discriminate|lia]. }
  pose proof (bpow_pos e). nra.
Qed.

Lemma shr_1_nonneg mrs : 0 <= shr_m mrs -> 0 <= shr_m (shr_1 mrs).
Proof. intros H. rewrite shr_1_m by done. now apply Z.div_pos. Qed.

Lemma located_iter p mrs e v :
  0 <= shr_m mrs -> located mrs e v ->
  located (SpecFloat.iter_pos shr_1 p mrs) (e + Zpos p) v /\
  0 <= shr_m (SpecFloat.iter_pos shr_1 p mrs).
Proof.
  revert mrs e. induction p as [p IH|p IH|]; intros mrs e Hm H.
  - change (SpecFloat.iter_pos shr_1 p~1 mrs)
      with (SpecFloat.iter_pos shr_1 p (SpecFloat.iter_pos shr_1 p (shr_1 mrs))).
    replace (e + Zpos p~1) with (e + 1 + Zpos p + Zpos p) by lia.
    destruct (IH (shr_1 mrs) (e + 1) (shr_1_nonneg _ Hm)
                (located_shr_1 _ _ _ Hm H)) as [H1 Hm1].
    now apply IH.
  - change (SpecFloat.iter_pos shr_1 p~0 mrs)
      with (SpecFloat.iter_pos shr_1 p (SpecFloat.iter_pos shr_1 p mrs)).
    replace (e + Zpos p~0) with (e + Zpos p + Zpos p) by lia.
    destruct (IH mrs e Hm H) as [H1 Hm1]. now apply IH.
  - split; [now apply located_shr_1|now apply shr_1_nonneg].
Qed.

Lemma located_shr mrs e n mrs' e' v :
  0 <= shr_m mrs -> located mrs e v -> shr mrs e n = (mrs', e') ->
  located mrs' e' v /\ 0 <= shr_m mrs' /\ e <= e'.
Proof.
  intros Hm H. unfold shr. destruct n as [|p|p]; intros [= <- <-].
  - repeat split; (done || lia).
  - destruct (located_iter p mrs e v Hm H). repeat split; (done || lia).
  - repeat split; (done || lia).
Qed.

Lemma located_loc mrs e v :
  located mrs e v <-> inbetween (shr_m mrs) (loc_of_shr_record mrs) e v.
Proof. destruct mrs as [m [] []]; reflexivity. Qed.

Lemma located_bounds mrs e v :
  located mrs e v ->
  (inject_Z (shr_m mrs) * bpow e <= v /\
   v < inject_Z (shr_m mrs) * bpow e + bpow e)%Q.
Proof.
  destruct mrs as [m r s]. unfold located. simpl shr_m. simpl shr_r. simpl shr_s.
  pose proof (bpow_pos e). destruct r, s; intros H1; nra.
Qed.

(** Rounding to nearest leaves at most half a unit. *)
Lemma round_nearest_even_near mrs e v :
  located mrs e v ->
  let m := round_nearest_even (shr_m mrs) (loc_of_shr_record mrs) in
  (v - bpow e * (1 # 2) <= inject_Z m * bpow e /\
   inject_Z m * bpow e <= v + bpow e * (1 # 2))%Q.
Proof.
  destruct mrs as [m r s]. unfold located. simpl shr_m. simpl shr_r. simpl shr_s.
  pose proof (bpow_pos e).
  destruct r, s; simpl; intros H1;
    try destruct (Z.even m);
    rewrite ?inject_Z_plus; change (inject_Z 1) with 1%Q; nra.
Qed.

Lemma shr_record_of_loc_exact m e :
  located (shr_record_of_loc m loc_Exact) e (inject_Z m * bpow e).
Proof. unfold located. simpl. reflexivity. Qed.

Lemma Zdigits2_nonneg m : 0 <= Zdigits2 m.
Proof. destruct m; simpl; lia. Qed.

Lemma Zdigits2_le m k : 0 <= m < 2 ^ k -> 0 <= k -> Zdigits2 m <= k.
Proof.
  intros [H0 Hk] Hk0. destruct m as [|p|p]; simpl; try lia.
  pose proof (digits2_lower p) as Hl.
  destruct (Z.le_gt_cases (Zpos (digits2_pos p)) k) as [|Hgt]; [done|].
  assert (2 ^ k <= 2 ^ (Zpos (digits2_pos p) - 1))
    by (apply Z.pow_le_mono_r; lia). lia.
Qed.

(** One more can add one digit at most, and then gives a power of two. *)
Lemma Zdigits2_succ m :
  0 <= m ->
  Zdigits2 (m + 1) <= Zdigits2 m + 1 /\
  (Zdigits2 m < Zdigits2 (m + 1) -> m + 1 = 2 ^ Zdigits2 m).
Proof.
  intros Hm. pose proof (Zdigits2_bound m Hm) as Hb.
  pose proof (Zdigits2_nonneg m) as Hd. split.
  - apply Zdigits2_le; [|lia]. rewrite Z.pow_add_r, Z.pow_1_r by lia. lia.
  - intros Hlt. destruct (Z.eq_dec (m + 1) (2 ^ Zdigits2 m)) as [|Hne]; [done|].
    assert (Zdigits2 (m + 1) <= Zdigits2 m) by (apply Zdigits2_le; lia). lia.
Qed.

(** After [shr_fexp] the exponent is the one of the format, or above. *)
Lemma shr_fexp_exponent m e l mrs e' :
  0 <= m -> shr_fexp prec emax m e l = (mrs, e') ->
  fexp prec emax (Zdigits2 (shr_m mrs) + e') <= e'.
Proof.
  intros Hm. unfold shr_fexp, shr.
  pose proof (Zdigits2_bound m Hm) as Hd.
  pose proof (Zdigits2_nonneg m) as Hd0.
  set (n := fexp prec emax (Zdigits2 m + e) - e).
  assert (Hn : n = fexp prec emax (Zdigits2 m + e) - e) by done.
  destruct n as [|p|p]; intros [= <- <-];
    rewrite ?iter_pos_shr_1, shr_record_of_loc_m
      by now rewrite shr_record_of_loc_m.
  - lia.
  - assert (Hq : Zdigits2 (m / 2 ^ Zpos p) <= Z.max (Zdigits2 m - Zpos p) 0).
    { destruct (Z.le_gt_cases (Zpos p) (Zdigits2 m)) as [Hle|Hgt].
      - rewrite Z.max_l by lia. apply Zdigits2_le; [|lia]. split.
        + apply Z.div_pos; lia.
        + apply Z.div_lt_upper_bound; [lia|].
          rewrite <- Z.pow_add_r by lia.
          now replace (Zpos p + (Zdigits2 m - Zpos p)) with (Zdigits2 m) by lia.
      - rewrite Z.max_r by lia. rewrite Z.div_small; [done|]. split; [done|].
        eapply Z.lt_le_trans; [exact Hd|]. apply Z.pow_le_mono_r; lia. }
    revert Hn Hq. unfold fexp, SpecFloat.emin, prec, emax. lia.
  - lia.
Qed.

Lemma round_nearest_even_cases m l :
  round_nearest_even m l = m \/ round_nearest_even m l = m + 1.
Proof. destruct l as [|[]]; simpl; auto. destruct (Z.even m); auto. Qed.

(** Renormalizing a rounded mantissa loses nothing. *)
Lemma shr_fexp_rounded mr l e' mrs'' e'' :
  0 <= mr -> fexp prec emax (Zdigits2 mr + e') <= e' ->
  shr_fexp prec emax (round_nearest_even mr l) e' loc_Exact = (mrs'', e'') ->
  shr_r mrs'' = false /\ shr_s mrs'' = false.
Proof.
  intros Hmr Hexp. unfold shr_fexp, shr.
  set (m1 := round_nearest_even mr l).
  set (n := fexp prec emax (Zdigits2 m1 + e') - e').
  assert (Hn : n = fexp prec emax (Zdigits2 m1 + e') - e') by done.
  destruct n as [|p|p]; intros [= <- _]; try done.
  destruct (Zdigits2_succ mr Hmr) as [Hs1 Hs2].
  pose proof (Zdigits2_nonneg mr) as Hd0.
  assert (Hm1 : m1 = mr + 1 /\ Zdigits2 mr < Zdigits2 m1).
  { destruct (round_nearest_even_cases mr l) as [E|E]; fold m1 in E.
    - exfalso. rewrite E in Hn. lia.
    - split; [done|]. rewrite E in Hn |- *.
      destruct (Z.le_gt_cases (Zdigits2 (mr + 1)) (Zdigits2 mr)) as [Hle|]; [|done].
      exfalso. revert Hn Hexp Hle. unfold fexp. lia. }
  destruct Hm1 as [E Hlt]. rewrite E in Hlt. specialize (Hs2 Hlt).
  assert (Hp : p = 1%positive).
  { rewrite E in Hn. revert Hn Hexp Hs1. unfold fexp. lia. }
  assert (Hpos : 0 < Zdigits2 mr).
  { destruct (Z.eq_dec (Zdigits2 mr) 0) as [E0|]; [|lia]. exfalso.
    assert (Hd1 : Zdigits2 (mr + 1) = 1)
      by (rewrite Hs2, E0; reflexivity).
    rewrite E, Hd1 in Hn. rewrite E0 in Hexp. revert Hn Hexp.
    unfold fexp, SpecFloat.emin, prec, emax. lia. }
  subst p. rewrite E, Hs2.
  replace (Zdigits2 mr) with (Z.succ (Zdigits2 mr - 1)) by lia.
  rewrite Z.pow_succ_r by lia.
  assert (Hk : 0 < 2 ^ (Zdigits2 mr - 1)) by (apply Z.pow_pos_nonneg; lia).
  destruct (2 ^ (Zdigits2 mr - 1)) as [|k|k]; try lia. done.
Qed.

Lemma Zdigits2_eq x k : 0 < k -> 2 ^ (k - 1) <= x < 2 ^ k -> Zdigits2 x = k.
Proof.
  intros Hk [Hl Hu].
  assert (H0 : 0 < x) by (pose proof (Z.pow_pos_nonneg 2 (k - 1)); lia).
  apply Z.le_antisymm; [apply Zdigits2_le; lia|].
  pose proof (Zdigits2_bound x ltac:(lia)) as Hb.
  pose proof (Zdigits2_nonneg x) as Hd.
  destruct (Z.le_gt_cases k (Zdigits2 x)) as [|Hgt]; [done|].
  assert (2 ^ Zdigits2 x <= 2 ^ (k - 1)) by (apply Z.pow_le_mono_r; lia). lia.
Qed.

Lemma Zdigits2_lower x : 0 < x -> 2 ^ (Zdigits2 x - 1) <= x.
Proof. destruct x as [|p|p]; try lia. intros _. apply digits2_lower. Qed.

Lemma Zdigits2_div m n :
  0 < m -> 0 <= n < Zdigits2 m -> Zdigits2 (m / 2 ^ n) = Zdigits2 m - n.
Proof.
  intros Hm Hn. pose proof (Zdigits2_bound m ltac:(lia)) as Hu.
  pose proof (Zdigits2_lower m Hm) as Hl.
  assert (Hp : 0 < 2 ^ n) by (apply Z.pow_pos_nonneg; lia).
  apply Zdigits2_eq; [lia|]. split.
  - apply Z.div_le_lower_bound; [done|]. rewrite <- Z.pow_add_r by lia.
    now replace (n + (Zdigits2 m - n - 1)) with (Zdigits2 m - 1) by lia.
  - apply Z.div_lt_upper_bound; [done|]. rewrite <- Z.pow_add_r by lia.
    now replace (n + (Zdigits2 m - n)) with (Zdigits2 m) by lia.
Qed.

Lemma Zdigits2_pow2 k : 0 <= k -> Zdigits2 (2 ^ k) = k + 1.
Proof.
  intros Hk. apply Zdigits2_eq; [lia|].
  replace (k + 1 - 1) with k by lia. split; [lia|].
  apply Z.pow_lt_mono_r; lia.
Qed.

(** [shr_fexp] on an aligned mantissa: the exponent of the format, with a
    canonical mantissa, or nothing left at the least exponent. *)
Lemma shr_fexp_aligned m e l mrs e' :
  0 <= m -> aligned m e -> shr_fexp prec emax m e l = (mrs, e') ->
  (0 < shr_m mrs -> fexp prec emax (Zdigits2 (shr_m mrs) + e') = e') /\
  (shr_m mrs = 0 -> e' = SpecFloat.emin prec emax).
Proof.
  intros Hm Ha. unfold aligned in Ha. unfold shr_fexp, shr.
  pose proof (Zdigits2_bound m Hm) as Hd.
  pose proof (Zdigits2_nonneg m) as Hd0.
  set (n := fexp prec emax (Zdigits2 m + e) - e).
  assert (Hn : n = fexp prec emax (Zdigits2 m + e) - e) by done.
  destruct n as [|p|p]; intros [= <- <-];
    rewrite ?iter_pos_shr_1, shr_record_of_loc_m
      by now rewrite shr_record_of_loc_m; try lia.
  - split; [intros _; lia|]. intros ->. simpl in *. revert Hn.
    unfold fexp, SpecFloat.emin, prec, emax. lia.
  - split.
    + intros Hq.
      assert (Hlt : Zpos p < Zdigits2 m).
      { destruct (Z.le_gt_cases (Zdigits2 m) (Zpos p)) as [Hle|]; [|done].
        rewrite Z.div_small in Hq; [lia|]. split; [done|].
        eapply Z.lt_le_trans; [exact Hd|]. apply Z.pow_le_mono_r; lia. }
      assert (Hm0 : 0 < m).
      { destruct (Z.eq_dec m 0) as [->|]; [simpl in *; lia|lia]. }
      rewrite Zdigits2_div by lia.
      replace (Zdigits2 m - Zpos p + (e + Zpos p)) with (Zdigits2 m + e) by lia.
      lia.
    + intros Hq.
      assert (Hle : Zdigits2 m <= Zpos p).
      { destruct (Z.le_gt_cases (Zdigits2 m) (Zpos p)) as [|Hgt]; [done|].
        assert (Hm0 : 0 < m).
        { destruct (Z.eq_dec m 0) as [->|]; [simpl in *; lia|lia]. }
        pose proof (Zdigits2_div m (Zpos p) Hm0 ltac:(lia)) as Hdiv.
        rewrite Hq in Hdiv. simpl in Hdiv. lia. }
      revert Hn Hle. unfold fexp, SpecFloat.emin, prec, emax. lia.
  - lia.
Qed.

Lemma Zdigits2_mono m m' : 0 <= m <= m' -> Zdigits2 m <= Zdigits2 m'.
Proof.
  intros [H0 H]. apply Zdigits2_le; [|apply Zdigits2_nonneg].
  pose proof (Zdigits2_bound m' ltac:(lia)). lia.
Qed.

(** Renormalizing a rounded canonical mantissa: no shift, or one after a
    carry, and a canonical mantissa again. *)
Lemma shr_fexp_rounded_canonical mr l e' mrs'' e'' :
  0 <= mr ->
  (0 < mr -> fexp prec emax (Zdigits2 mr + e') = e') ->
  (mr = 0 -> e' = SpecFloat.emin prec emax) ->
  shr_fexp prec emax (round_nearest_even mr l) e' loc_Exact = (mrs'', e'') ->
  (shr_m mrs'' = 0 -> round_nearest_even mr l = 0) /\
  (0 < shr_m mrs'' -> fexp prec emax (Zdigits2 (shr_m mrs'') + e'') = e'') /\
  (e'' = e' \/ e'' = e' + 1).
Proof.
  intros Hmr Hc Hz. unfold shr_fexp, shr.
  pose proof (round_nearest_even_cases mr l) as Hcases.
  set (m1 := round_nearest_even mr l) in *.
  set (n := fexp prec emax (Zdigits2 m1 + e') - e').
  assert (Hn : n = fexp prec emax (Zdigits2 m1 + e') - e') by done.
  assert (Hd : Zdigits2 mr <= Zdigits2 m1) by (apply Zdigits2_mono; lia).
  destruct (Zdigits2_succ mr Hmr) as [Hs1 Hs2].
  pose proof (Zdigits2_nonneg mr) as Hd0.
  assert (Hge : e' <= fexp prec emax (Zdigits2 m1 + e')).
  { destruct (Z.eq_dec mr 0) as [E0|E0].
    - rewrite (Hz E0). unfold fexp. lia.
    - specialize (Hc ltac:(lia)). revert Hc Hd. unfold fexp. lia. }
  destruct n as [|p|p]; intros [= <- <-]; [| |lia].
  - cbn [shr_m]. repeat split; [done|lia|auto].
  - assert (Hpos : 0 < mr).
    { destruct (Z.eq_dec mr 0) as [E0|E0]; [|lia]. exfalso.
      specialize (Hz E0). subst mr.
      assert (Hd1 : Zdigits2 m1 <= 1)
        by (destruct Hcases as [-> | ->]; simpl; lia).
      pose proof (Zdigits2_nonneg m1).
      revert Hn Hd1 Hz. unfold fexp, SpecFloat.emin, prec, emax. lia. }
    specialize (Hc Hpos).
    assert (E : m1 = mr + 1 /\ Zdigits2 mr < Zdigits2 m1).
    { destruct Hcases as [E|E].
      - exfalso. rewrite E in Hn. lia.
      - split; [done|]. rewrite E in Hn |- *.
        destruct (Z.le_gt_cases (Zdigits2 (mr + 1)) (Zdigits2 mr)); [|done].
        exfalso. revert Hn Hc H. unfold fexp. lia. }
    destruct E as [E Hlt]. rewrite E in Hlt, Hn. specialize (Hs2 Hlt).
    assert (Hp : p = 1%positive) by (revert Hn Hc Hs1; unfold fexp; lia).
    assert (Hdp : 0 < Zdigits2 mr).
    { destruct mr; simpl; lia. }
    subst p. rewrite iter_pos_shr_1 by (cbn [shr_m]; lia).
    cbn [shr_m]. rewrite E, Hs2.
    assert (Hhalf : 2 ^ Zdigits2 mr / 2 ^ 1 = 2 ^ (Zdigits2 mr - 1)).
    { replace (Zdigits2 mr) with (Zdigits2 mr - 1 + 1) at 1 by lia.
      rewrite Z.pow_add_r by lia. apply Z.div_mul. lia. }
    rewrite Hhalf, Zdigits2_pow2 by lia.
    assert (Hk : 0 < 2 ^ (Zdigits2 mr - 1)) by (apply Z.pow_pos_nonneg; lia).
    repeat split; [lia| |auto]. intros _.
    replace (Zdigits2 mr - 1 + 1 + (e' + 1)) with (Zdigits2 mr + 1 + e') by lia.
    replace (Zdigits2 mr + 1) with (Zdigits2 (mr + 1)) by lia. lia.
Qed.

(** [binary_round_aux] rounds: an aligned mantissa and the location of
    [v] give [v] rounded. *)
Lemma binary_round_aux_rounded sx mx ex lx v :
  0 <= mx -> aligned mx ex -> inbetween mx lx ex v ->
  rounded sx v (binary_round_aux prec emax sx mx ex lx).
Proof.
  intros Hmx Hal Hv. unfold binary_round_aux.
  destruct (shr_fexp prec emax mx ex lx) as [mrs' e'] eqn:E1.
  pose proof (shr_fexp_exponent _ _ _ _ _ Hmx E1) as Hexp.
  destruct (shr_fexp_aligned _ _ _ _ _ Hmx Hal E1) as [Hc1 Hz1].
  unfold shr_fexp in E1.
  apply (located_shr _ _ _ _ _ v) in E1 as (H1 & Hm1 & He1);
    [|now rewrite shr_record_of_loc_m|exact Hv].
  pose proof (round_nearest_even_near mrs' e' v H1) as Hr. simpl in Hr.
  pose proof (located_bounds _ _ _ H1) as [Hlo _].
  pose proof (round_nearest_even_cases (shr_m mrs') (loc_of_shr_record mrs'))
    as Hcases.
  destruct (shr_fexp prec emax _ e' loc_Exact) as [mrs'' e''] eqn:E2.
  pose proof (shr_fexp_rounded _ _ _ _ _ Hm1 Hexp E2) as [Hr2 Hs2].
  destruct (shr_fexp_rounded_canonical _ _ _ _ _ Hm1 Hc1 Hz1 E2)
    as (Hz2 & Hc2 & He2).
  set (m1 := round_nearest_even (shr_m mrs') (loc_of_shr_record mrs')) in *.
  unfold shr_fexp in E2.
  apply (located_shr _ _ _ _ _ (inject_Z m1 * bpow e')) in E2
    as (H2 & Hm2 & _);
    [|rewrite shr_record_of_loc_m; lia|apply shr_record_of_loc_exact].
  unfold located in H2. rewrite Hr2, Hs2 in H2.
  pose proof (bpow_pos e') as Hb'.
  destruct (shr_m mrs'') as [|p|p] eqn:Ep; [| |lia].
  - cbn [rounded]. split; [done|]. specialize (Hz2 eq_refl).
    assert (H0 : shr_m mrs' = 0) by lia.
    rewrite <- (Hz1 H0). rewrite Hz2 in Hr. change (inject_Z 0) with 0%Q in Hr.
    nra.
  - specialize (Hc2 ltac:(lia)). simpl Zdigits2 in Hc2.
    destruct (Z.leb_spec e'' (emax - prec)) as [Hle|Hgt].
    + cbn [rounded valid_binary]. split; [done|]. split.
      * unfold bounded, canonical_mantissa. rewrite Hc2, Z.eqb_refl. simpl.
        now apply Z.leb_le.
      * assert (Hee : e' <= e'') by lia.
        pose proof (bpow_le e' e'' Hee). rewrite <- H2. nra.
    + cbn [rounded]. split; [done|].
      assert (Hdig : Zpos (digits2_pos p) = prec).
      { revert Hc2 Hgt. unfold fexp, SpecFloat.emin, prec, emax. lia. }
      pose proof (digits2_lower p) as Hlow. rewrite Hdig in Hlow.
      assert (HA : (bpow (prec - 1) <= inject_Z (Zpos p))%Q).
      { rewrite bpow_inject by (unfold prec; lia). now rewrite <- Zle_Qle. }
      assert (HA1 : (1 <= bpow (prec - 1))%Q).
      { change 1%Q with (bpow 0). apply bpow_le. unfold prec. lia. }
      destruct He2 as [-> | ->].
      * assert (Hmr : 0 < shr_m mrs').
        { destruct (Z.eq_dec (shr_m mrs') 0) as [E0|]; [|lia].
          specialize (Hz1 E0). revert Hz1 Hgt.
          unfold SpecFloat.emin, prec, emax. lia. }
        specialize (Hc1 Hmr).
        assert (Hdr : Zdigits2 (shr_m mrs') = prec).
        { revert Hc1 Hgt. unfold fexp, SpecFloat.emin, prec, emax. lia. }
        pose proof (Zdigits2_lower _ Hmr) as Hl. rewrite Hdr in Hl.
        assert (HX : (bpow (prec - 1) <= inject_Z (shr_m mrs'))%Q).
        { rewrite bpow_inject by (unfold prec; lia). now rewrite <- Zle_Qle. }
        assert (HB : (bpow (emax - prec + 1) <= bpow e')%Q)
          by (apply bpow_le; lia).
        pose proof (bpow_pos (emax - prec + 1)).
        pose proof (bpow_pos (emax - prec)).
        assert (HAB : (bpow (prec - 1) * bpow (emax - prec + 1) == bpow emax)%Q).
        { rewrite <- bpow_add. now replace (prec - 1 + (emax - prec + 1)) with emax by lia. }
        nra.
      * assert (HB : (bpow (emax - prec) <= bpow e')%Q)
          by (apply bpow_le; lia).
        pose proof (bpow_pos (emax - prec)).
        rewrite bpow_succ in H2.
        assert (HAB : (bpow (prec - 1) * (2 * bpow (emax - prec)) == bpow emax)%Q).
        { rewrite <- bpow_succ, <- bpow_add.
          now replace (prec - 1 + (emax - prec + 1)) with emax by lia. }
        nra.
Qed.

Lemma shl_align_value mx ex ex' mz ez :
  shl_align mx ex ex' = (mz, ez) ->
  (inject_Z (Zpos mz) * bpow ez == inject_Z (Zpos mx) * bpow ex)%Q.
Proof.
  unfold shl_align. destruct (ex' - ex) as [|d|d] eqn:E; intros [= <- <-];
    try reflexivity.
  rewrite iter_xO_val, inject_Z_mult, <- bpow_inject by lia.
  replace ex with (ex' + Zpos d) by lia. rewrite bpow_add. ring.
Qed.

(** The location [new_location] gives for the remainder of a division. *)
Lemma new_location_inbetween d q r e :
  0 < d -> 0 <= r < d ->
  inbetween q (new_location d r) e
    ((inject_Z q + inject_Z r / inject_Z d) * bpow e).
Proof.
  intros Hd Hr. pose proof (bpow_pos e) as Ht.
  assert (HD : (0 < inject_Z d)%Q) by (rewrite <- (Zlt_Qlt 0); lia).
  set (rho := (inject_Z r / inject_Z d)%Q).
  assert (Hrho : (rho * inject_Z d == inject_Z r)%Q)
    by (unfold rho; field; lra).
  assert (Hlt : 2 * r < d -> (rho < 1 # 2)%Q).
  { intros H. rewrite Zlt_Qlt, inject_Z_mult in H.
    change (inject_Z 2) with 2%Q in H. nra. }
  assert (Hgt : d < 2 * r -> (1 # 2 < rho)%Q).
  { intros H. rewrite Zlt_Qlt, inject_Z_mult in H.
    change (inject_Z 2) with 2%Q in H. nra. }
  assert (Heq : 2 * r = d -> (rho == 1 # 2)%Q).
  { intros H. assert (H2 : (2 * inject_Z r == inject_Z d)%Q)
      by (rewrite <- H, inject_Z_mult; reflexivity). nra. }
  assert (Hpos : r <> 0 -> (0 < rho)%Q).
  { intros H. assert (H0 : (0 < inject_Z r)%Q) by (rewrite <- (Zlt_Qlt 0); lia).
    nra. }
  assert (Hone : (rho < 1)%Q).
  { assert (H1 : (inject_Z r < inject_Z d)%Q) by (rewrite <- Zlt_Qlt; lia).
    nra. }
  assert (Hzero : r = 0 -> (rho == 0)%Q).
  { intros ->. unfold rho. change (inject_Z 0) with 0%Q. field. lra. }
  unfold inbetween, located, new_location, new_location_even, new_location_odd.
  destruct (Z.even d) eqn:Ev.
  - destruct (Z.eqb_spec r 0) as [E|E]; simpl.
    + specialize (Hzero E). nra.
    + specialize (Hpos E). destruct (Z.compare_spec (2 * r) d) as [H|H|H]; simpl.
      * specialize (Heq H). nra.
      * specialize (Hlt H). nra.
      * specialize (Hgt H). nra.
  - assert (Hodd : 2 * r <> d).
    { intros <-. rewrite Z.even_mul in Ev. discriminate. }
    destruct (Z.eqb_spec r 0) as [E|E]; simpl.
    + specialize (Hzero E). nra.
    + specialize (Hpos E).
      destruct (Z.compare_spec (2 * r + 1) d) as [H|H|H]; simpl.
      * assert (H' : 2 * r < d) by lia. specialize (Hlt H'). nra.
      * assert (H' : 2 * r < d) by lia. specialize (Hlt H'). nra.
      * assert (H' : d < 2 * r) by lia. specialize (Hgt H'). nra.
Qed.

Lemma rounded_comp neg v v' x : (v == v')%Q -> rounded neg v x -> rounded neg v' x.
Proof.
  intros Hv. destruct x as [s|s| |s m e]; cbn [rounded]; try done;
    now rewrite Hv.
Qed.

Lemma Zdigits2_pos m : 0 < m -> 0 < Zdigits2 m.
Proof. destruct m; simpl; lia. Qed.

Lemma Zdigits2_mul_pow2 m d :
  0 < m -> 0 <= d -> Zdigits2 (m * 2 ^ d) = Zdigits2 m + d.
Proof.
  intros Hm Hd. pose proof (Zdigits2_lower m Hm) as Hl.
  pose proof (Zdigits2_bound m ltac:(lia)) as Hu.
  pose proof (Zdigits2_pos m Hm) as Hp.
  assert (H2 : 0 < 2 ^ d) by (apply Z.pow_pos_nonneg; lia).
  apply Zdigits2_eq; [lia|].
  replace (Zdigits2 m + d - 1) with (Zdigits2 m - 1 + d) by lia.
  rewrite !Z.pow_add_r by lia. split; nia.
Qed.

Lemma shl_align_aligned mx ex mz ez :
  shl_align mx ex (fexp prec emax (Zpos (digits2_pos mx) + ex)) = (mz, ez) ->
  aligned (Zpos mz) ez.
Proof.
  unfold shl_align, aligned.
  destruct (fexp prec emax (Zpos (digits2_pos mx) + ex) - ex) as [|d|d] eqn:E;
    intros [= <- <-]; simpl Zdigits2 in *; try lia.
  rewrite iter_xO_digits.
  set (f := fexp prec emax (Zpos (digits2_pos mx) + ex)) in *.
  replace (Zpos (digits2_pos mx) + Zpos d + f)
    with (Zpos (digits2_pos mx) + ex) by lia. fold f. lia.
Qed.

Lemma binary_round_rounded sx mx :
  rounded sx (inject_Z (Zpos mx)) (binary_round prec emax sx mx 0).
Proof.
  unfold binary_round.
  destruct (shl_align mx 0 _) as [mz ez] eqn:E.
  pose proof (shl_align_aligned _ _ _ _ E) as Hal.
  apply shl_align_value in E.
  apply binary_round_aux_rounded; [lia|done|].
  unfold inbetween, located. simpl. rewrite E. unfold bpow. simpl. ring.
Qed.

Lemma div_rounded sx p d :
  rounded sx (inject_Z (Zpos p) / inject_Z (Zpos d))
    (SFdiv prec emax (S754_finite sx p 0) (S754_finite false d 0)).
Proof.
  unfold SFdiv, SFdiv_core_binary.
  set (d1 := Zdigits2 (Zpos p)). set (d2 := Zdigits2 (Zpos d)).
  set (e' := Z.min _ (0 - 0)).
  assert (He' : e' <= 0) by (subst e'; lia).
  assert (Hf : e' <= fexp prec emax (d1 - d2)).
  { subst e'. replace (d1 + 0 - (d2 + 0)) with (d1 - d2) by lia. lia. }
  set (m' := match 0 - 0 - e' with
             | Z0 => Zpos p | Zpos _ => Z.shiftl (Zpos p) (0 - 0 - e') | Zneg _ => 0
             end).
  assert (Hm' : m' = Zpos p * 2 ^ (- e')).
  { subst m'. destruct (0 - 0 - e') as [|k|k] eqn:Ek; try lia.
    - replace (- e') with 0 by lia. lia.
    - rewrite Z.shiftl_mul_pow2 by lia. f_equal. f_equal. lia. }
  pose proof (Z_div_mod m' (Zpos d) ltac:(lia)) as Hdiv.
  destruct (Z.div_eucl m' (Zpos d)) as [q r]. destruct Hdiv as [Hqr Hr].
  rewrite xorb_false_r.
  assert (H2 : 0 < 2 ^ (- e')) by (apply Z.pow_pos_nonneg; lia).
  assert (Hq : 0 <= q) by nia.
  assert (Hal : aligned q e').
  { unfold aligned.
    assert (Hdq : d1 - d2 - e' <= Zdigits2 q).
    { pose proof (Zdigits2_nonneg q).
      destruct (Z.le_gt_cases (d1 - d2 - e') 0) as [|Hk]; [lia|].
      set (k := d1 - d2 - e' - 1).
      assert (Hqk : 2 ^ k <= q).
      { pose proof (Zdigits2_lower (Zpos p) ltac:(lia)) as Hl. fold d1 in Hl.
        pose proof (Zdigits2_bound (Zpos d) ltac:(lia)) as Hu. fold d2 in Hu.
        pose proof (Zdigits2_pos (Zpos p) ltac:(lia)) as Hp1. fold d1 in Hp1.
        pose proof (Zdigits2_pos (Zpos d) ltac:(lia)) as Hp2. fold d2 in Hp2.
        assert (Hk0 : 0 < 2 ^ k) by (apply Z.pow_pos_nonneg; lia).
        assert (Hpow : 2 ^ k * 2 ^ d2 = 2 ^ (d1 - 1) * 2 ^ (- e')).
        { rewrite <- !Z.pow_add_r by lia. f_equal. lia. }
        assert (Hlt : 2 ^ k * Zpos d < m') by nia.
        destruct (Z.le_gt_cases (2 ^ k) q) as [|Hgt]; [done|]. nia. }
      assert (Hdk : Zdigits2 (2 ^ k) <= Zdigits2 q).
      { apply Zdigits2_mono. split; [apply Z.pow_nonneg; lia|done]. }
      rewrite Zdigits2_pow2 in Hdk by lia. lia. }
    revert Hf Hdq. unfold fexp. lia. }
  eapply rounded_comp;
    [|apply binary_round_aux_rounded;
      [exact Hq|exact Hal|apply new_location_inbetween; lia]].
  assert (HD : (0 < inject_Z (Zpos d))%Q) by reflexivity.
  assert (Hm : (inject_Z (Zpos d) * inject_Z q + inject_Z r
                == inject_Z (Zpos p) * bpow (- e'))%Q).
  { rewrite <- inject_Z_mult, <- inject_Z_plus, <- Hqr, Hm', inject_Z_mult.
    now rewrite bpow_inject by lia. }
  assert (Hb : (bpow (- e') * bpow e' == 1)%Q).
  { rewrite <- bpow_add. now replace (- e' + e') with 0 by lia. }
  transitivity ((inject_Z (Zpos d) * inject_Z q + inject_Z r)
                / inject_Z (Zpos d) * bpow e')%Q; [field; lra|].
  rewrite Hm. transitivity (inject_Z (Zpos p) / inject_Z (Zpos d)
                            * (bpow (- e') * bpow e'))%Q; [field; lra|].
  rewrite Hb. field. lra.
Qed.

(** [round_decimal] rounds the decimal value to binary64. *)
Lemma round_decimal_rounded neg p E :
  rounded neg (inject_Z (Zpos p) * 10 ^ E) (round_decimal neg (Zpos p) E).
Proof.
  unfold round_decimal. destruct (Z.leb_spec 0 E) as [HE|HE].
  - assert (Hpos : 0 < Zpos p * 10 ^ E)
      by (apply Z.mul_pos_pos; [lia|apply Z.pow_pos_nonneg; lia]).
    assert (Hval : (inject_Z (Zpos p * 10 ^ E) == inject_Z (Zpos p) * 10 ^ E)%Q).
    { rewrite inject_Z_mult, Zpower_Qpower by done. reflexivity. }
    destruct (Zpos p * 10 ^ E) as [|q|q] eqn:Eq; try lia.
    apply (rounded_comp _ _ _ _ Hval). unfold binary_normalize.
    destruct neg; simpl cond_Zopp; apply binary_round_rounded.
  - assert (Hd : Zpos (Z.to_pos (10 ^ (- E))) = 10 ^ (- E)).
    { apply Z2Pos.id. apply Z.pow_pos_nonneg; lia. }
    assert (Hval : (inject_Z (Zpos p) / inject_Z (Zpos (Z.to_pos (10 ^ (- E))))
                    == inject_Z (Zpos p) * 10 ^ E)%Q).
    { rewrite Hd, Zpower_Qpower by lia. change (inject_Z 10) with 10%Q.
      rewrite Qpower_opp. unfold Qdiv. now rewrite Qinv_involutive. }
    apply (rounded_comp _ _ _ _ Hval), div_rounded.
Qed.

End Rounding.

(** ** [float] on a decimal literal *)

Section Literals.

Lemma all_digits_Forall ds :
  all_digits ds = true -> Forall (fun d => (d < 10)%nat) ds.
Proof.
  induction ds as [|d ds IH]; simpl; [constructor|].
  intros H. apply andb_prop in H as [Hd H]. constructor; [|auto].
  now apply Nat.ltb_lt.
Qed.

Lemma digit_val_ascii d :
  (d < 10)%nat -> digit_val (digit_ascii d) = Some (Z.of_nat d).
Proof. intros H. do 10 (destruct d as [|d]; [reflexivity|]). lia. Qed.

Lemma digitpart_digits ds :
  all_digits ds = true -> nonempty ds = true ->
  digitpart (digits_text ds) = Some (map Z.of_nat ds).
Proof.
  induction ds as [|d ds IH]; [done|]. intros H _.
  simpl in H. apply andb_prop in H as [Hd H]. apply Nat.ltb_lt in Hd.
  cbn [digits_text map digitpart]. rewrite digit_val_ascii by done.
  destruct ds as [|d' ds]; [done|].
  specialize (IH H eq_refl). cbn [map].
  assert (Hd' : (d' < 10)%nat)
    by (simpl in H; apply andb_prop in H as [H' _]; now apply Nat.ltb_lt).
  assert (Hu : Ascii.eqb (digit_ascii d') "_" = false).
  { clear -Hd'. do 10 (destruct d' as [|d']; [reflexivity|]). lia. }
  rewrite Hu. cbn [digits_text map] in IH. now rewrite IH.
Qed.

Lemma fold_decimal ds acc :
  fold_left (fun acc d => 10 * acc + d) (map Z.of_nat ds) acc
  = acc * 10 ^ Z.of_nat (length ds) + decimal ds.
Proof.
  revert acc. induction ds as [|d ds IH]; intros acc; simpl fold_left.
  - simpl. lia.
  - rewrite IH. cbn [decimal length]. rewrite Nat2Z.inj_succ, Z.pow_succ_r by lia.
    ring.
Qed.

Lemma digits_value_decimal ds : digits_value (map Z.of_nat ds) = decimal ds.
Proof. unfold digits_value. rewrite fold_decimal. lia. Qed.

Lemma decimal_nonneg ds : 0 <= decimal ds.
Proof.
  induction ds as [|d ds IH]; simpl decimal; [lia|].
  assert (0 <= 10 ^ Z.of_nat (length ds)) by (apply Z.pow_nonneg; lia). nia.
Qed.

Lemma decimal_app a b :
  decimal (a ++ b) = decimal a * 10 ^ Z.of_nat (length b) + decimal b.
Proof.
  induction a as [|d a IH]; [simpl; lia|].
  cbn [app decimal]. rewrite IH, length_app, Nat2Z.inj_add, Z.pow_add_r by lia.
  ring.
Qed.

Lemma Qpow10_pos z : (0 < 10 ^ z)%Q.
Proof. apply Qpower_0_lt. reflexivity. Qed.

Lemma Qpow10_add a b : (10 ^ (a + b) == 10 ^ a * 10 ^ b)%Q.
Proof. apply Qpower_plus. discriminate. Qed.

Lemma fraction_decimal fs :
  (fraction fs == inject_Z (decimal fs) * 10 ^ (- Z.of_nat (length fs)))%Q.
Proof.
  induction fs as [|d fs IH]; [reflexivity|].
  cbn [fraction decimal length]. rewrite IH, inject_Z_plus, inject_Z_mult.
  rewrite Zpower_Qpower by lia. change (inject_Z 10) with 10%Q.
  set (n := Z.of_nat (length fs)).
  replace (- Z.of_nat (S (length fs))) with (- n + -1) by lia.
  rewrite Qpow10_add.
  assert (Hn : (10 ^ n * 10 ^ (- n) == 1)%Q).
  { rewrite <- Qpow10_add. now replace (n + - n) with 0 by lia. }
  change (10 ^ (-1))%Q with (1 # 10)%Q.
  set (x := inject_Z (Z.of_nat d)). set (y := inject_Z (decimal fs)).
  transitivity ((x * (10 ^ n * 10 ^ (- n)) + y * 10 ^ (- n)) / 10)%Q.
  - rewrite Hn. field.
  - field.
Qed.

(** The mantissa and exponent read give the magnitude. *)
Lemma magnitude_mantissa ip fp ex :
  (inject_Z (decimal (ip ++ fp)) * 10 ^ (ex - Z.of_nat (length fp))
   == (inject_Z (decimal ip) + fraction fp) * 10 ^ ex)%Q.
Proof.
  rewrite decimal_app, fraction_decimal, inject_Z_plus, inject_Z_mult.
  rewrite Zpower_Qpower by lia. change (inject_Z 10) with 10%Q.
  set (n := Z.of_nat (length fp)).
  replace (ex - n) with (ex + - n) by lia. rewrite Qpow10_add.
  assert (Hn : (10 ^ n * 10 ^ (- n) == 1)%Q).
  { rewrite <- Qpow10_add. now replace (n + - n) with 0 by lia. }
  set (x := inject_Z (decimal ip)). set (y := inject_Z (decimal fp)).
  transitivity ((x * (10 ^ n * 10 ^ (- n)) + y * 10 ^ (- n)) * 10 ^ ex)%Q.
  - ring.
  - rewrite Hn. ring.
Qed.

Lemma digit_ascii_char d :
  (d < 10)%nat ->
  let c := digit_ascii d in
  is_space c = false /\ field_char c = true /\
  Ascii.eqb "." c = false /\ (Ascii.eqb c "e" || Ascii.eqb c "E") = false /\
  Ascii.eqb c "-" = false /\ Ascii.eqb c "+" = false /\
  lower c = c /\ c <> "n" /\ c <> "i".
Proof.
  intros H. do 10 (destruct d as [|d]; [now vm_compute|]). lia.
Qed.

Lemma digits_text_chars (Q : ascii -> Prop) ds :
  all_digits ds = true ->
  (forall d, (d < 10)%nat -> Q (digit_ascii d)) ->
  Forall Q (digits_text ds).
Proof.
  intros H HQ. apply all_digits_Forall in H. unfold digits_text.
  apply Forall_fmap. eapply Forall_impl; [exact H|]. intros d Hd. now apply HQ.
Qed.

Lemma cut_app p s t :
  Forall (fun c => p c = false) s ->
  cut p (s ++ t) = (s ++ (cut p t).1, (cut p t).2).
Proof.
  induction 1 as [|c s Hc _ IH]; simpl.
  - now destruct (cut p t).
  - now rewrite Hc, IH.
Qed.

Lemma take_sign_sign s rest :
  match rest with
  | c :: _ => Ascii.eqb c "-" = false /\ Ascii.eqb c "+" = false
  | [] => True
  end ->
  take_sign (sign_text s ++ rest) = (is_minus s, rest).
Proof.
  destruct s; [|done|done]. destruct rest as [|c rest]; [done|].
  simpl. now intros [-> ->].
Qed.

Lemma number_literal ip (pt : bool) fp :
  all_digits ip = true -> all_digits fp = true ->
  nonempty ip || nonempty fp = true -> pt || negb (nonempty fp) = true ->
  number (digits_text ip ++ (if pt then "." :: digits_text fp else []))
  = Some (map Z.of_nat ip, map Z.of_nat fp).
Proof.
  intros Hi Hf Hne Hpt. unfold number.
  assert (Hc : Forall (fun c => Ascii.eqb "." c = false) (digits_text ip)).
  { apply digits_text_chars; [done|]. intros d Hd.
    apply (digit_ascii_char d Hd). }
  rewrite cut_app by done. destruct pt; simpl cut.
  - rewrite app_nil_r. cbn [fst snd].
    destruct ip as [|i ip], fp as [|f fp]; try done.
    + pose proof (digitpart_digits (f :: fp) Hf eq_refl) as E.
      cbn [app digits_text map] in E |- *. cbv iota. now rewrite E.
    + pose proof (digitpart_digits (i :: ip) Hi eq_refl) as E.
      cbn [app digits_text map] in E |- *. cbv iota. now rewrite E.
    + pose proof (digitpart_digits (i :: ip) Hi eq_refl) as E.
      pose proof (digitpart_digits (f :: fp) Hf eq_refl) as E'.
      cbn [app digits_text map] in E, E' |- *. cbv iota. now rewrite E, E'.
  - rewrite app_nil_r. cbn [fst snd]. destruct fp; [|done].
    rewrite digitpart_digits; [done|done|]. now destruct ip.
Qed.

Lemma exponent_literal up s ds :
  all_digits ds = true -> nonempty ds = true ->
  exponent (sign_text s ++ digits_text ds) = Some (exp_value (Some (up, s, ds))).
Proof.
  intros Hd Hne. unfold exponent, signed_int. rewrite take_sign_sign.
  - rewrite digitpart_digits by done. simpl. rewrite digits_value_decimal.
    now destruct s.
  - destruct ds as [|d ds]; [done|]. simpl in Hd.
    apply andb_prop in Hd as [Hd _]. apply Nat.ltb_lt in Hd.
    cbn [digits_text map]. split; apply (digit_ascii_char d Hd).
Qed.

Lemma literal_parts l :
  wf_literal l = true ->
  all_digits (lit_int l) = true /\ all_digits (lit_frac l) = true /\
  nonempty (lit_int l) || nonempty (lit_frac l) = true /\
  lit_point l || negb (nonempty (lit_frac l)) = true /\
  match lit_exp l with
  | None => True
  | Some (_, _, ds) => all_digits ds = true /\ nonempty ds = true
  end.
Proof.
  unfold wf_literal. intros H.
  repeat (apply andb_prop in H as [H ?]). repeat split; try done.
  destruct (lit_exp l) as [[[up s] ds]|]; [|done]. now apply andb_prop.
Qed.

(** The characters of the number of a literal, before the exponent. *)
Lemma number_chars (Q : ascii -> Prop) ip (pt : bool) fp :
  all_digits ip = true -> all_digits fp = true ->
  (forall d, (d < 10)%nat -> Q (digit_ascii d)) -> Q "." ->
  Forall Q (digits_text ip ++ (if pt then "." :: digits_text fp else [])).
Proof.
  intros Hi Hf Hd Hp. apply Forall_app. split; [now apply digits_text_chars|].
  destruct pt; [|constructor]. constructor; [done|now apply digits_text_chars].
Qed.

Lemma exp_chars (Q : ascii -> Prop) ex :
  match ex with
  | None => True
  | Some (_, _, ds) => all_digits ds = true /\ nonempty ds = true
  end ->
  (forall d, (d < 10)%nat -> Q (digit_ascii d)) ->
  Q "e" -> Q "E" -> Q "+" -> Q "-" ->
  Forall Q (exp_text ex).
Proof.
  destruct ex as [[[up s] ds]|]; [|constructor]. intros [Hd _] HQ He HE Hp Hm.
  simpl. constructor; [now destruct up|]. apply Forall_app. split.
  - destruct s; repeat constructor; done.
  - now apply digits_text_chars.
Qed.

Lemma render_chars (Q : ascii -> Prop) l :
  wf_literal l = true ->
  (forall d, (d < 10)%nat -> Q (digit_ascii d)) ->
  Q "." -> Q "e" -> Q "E" -> Q "+" -> Q "-" ->
  Forall Q (render l).
Proof.
  intros Hwf HQ Hpt He HE Hp Hm.
  destruct (literal_parts l Hwf) as (Hi & Hf & _ & _ & Hex).
  unfold render. apply Forall_app. split.
  - destruct (lit_sign l); repeat constructor; done.
  - rewrite (app_assoc (digits_text (lit_int l))). apply Forall_app. split.
    + now apply number_chars.
    + now apply exp_chars.
Qed.

(** [float] reads a literal as its digits and exponent. *)
Lemma py_float_literal l :
  wf_literal l = true ->
  py_float (render l)
  = Some (round_decimal (is_minus (lit_sign l))
            (decimal (lit_int l ++ lit_frac l))
            (exp_value (lit_exp l) - Z.of_nat (length (lit_frac l)))).
Proof.
  intros Hwf. destruct (literal_parts l Hwf) as (Hi & Hf & Hne & Hpt & Hex).
  unfold py_float.
  rewrite strip_keep
    by (apply render_chars; [done|intros d Hd; apply (digit_ascii_char d Hd)|..];
        reflexivity).
  unfold render. rewrite (app_assoc (digits_text (lit_int l))).
  set (num := digits_text (lit_int l)
              ++ (if lit_point l then "." :: digits_text (lit_frac l) else [])).
  assert (Hnum : exists c num', num = c :: num' /\
            Ascii.eqb c "-" = false /\ Ascii.eqb c "+" = false /\
            lower c = c /\ c <> "n" /\ c <> "i").
  { subst num. destruct (lit_int l) as [|i ip].
    - destruct (lit_frac l) as [|f fp]; [done|]. simpl in Hpt.
      rewrite orb_false_r in Hpt. rewrite Hpt. cbn [app digits_text map].
      eexists _, _. split; [reflexivity|]. now vm_compute.
    - simpl in Hi. apply andb_prop in Hi as [Hi _]. apply Nat.ltb_lt in Hi.
      cbn [app digits_text map]. eexists _, _. split; [reflexivity|].
      destruct (digit_ascii_char i Hi) as (_ & _ & _ & _ & ? & ? & ? & ? & ?).
      auto. }
  destruct Hnum as (c & num' & Enum & Hm & Hp & Hlow & Hn & Hi').
  rewrite take_sign_sign by (rewrite Enum; cbn [app]; auto).
  assert (Hword : forall w0 w,
            is_word (String w0 w) (num ++ exp_text (lit_exp l)) = true -> c = w0).
  { intros w0 w H. apply bool_decide_eq_true in H. rewrite Enum in H.
    simpl in H. injection H as H _. now rewrite Hlow in H. }
  destruct (is_word "nan" _) eqn:E1; [now apply Hword in E1|].
  destruct (is_word "inf" _) eqn:E2; [now apply Hword in E2|].
  destruct (is_word "infinity" _) eqn:E3; [now apply Hword in E3|].
  simpl orb. cbv iota. unfold floatnumber.
  rewrite cut_app
    by (subst num; apply number_chars; [done|done| |reflexivity];
        intros d Hd; apply (digit_ascii_char d Hd)).
  assert (Hnumber : number num
            = Some (map Z.of_nat (lit_int l), map Z.of_nat (lit_frac l)))
    by now apply number_literal.
  destruct (lit_exp l) as [[[up s] ds]|].
  - destruct Hex as [Hd Hds].
    replace (cut (fun c0 => Ascii.eqb c0 "e" || Ascii.eqb c0 "E")
               (exp_text (Some (up, s, ds))))
      with (@nil ascii, Some (sign_text s ++ digits_text ds))
      by now destruct up.
    cbn [fst snd]. rewrite app_nil_r, Hnumber. cbn [mbind option_bind].
    rewrite (exponent_literal up) by done. cbn [mbind option_bind].
    now rewrite <- map_app, digits_value_decimal, length_map.
  - simpl cut. cbn [fst snd]. rewrite app_nil_r, Hnumber.
    cbn [mbind option_bind].
    now rewrite <- map_app, digits_value_decimal, length_map.
Qed.

Lemma round_decimal_rounded_Z neg M E :
  0 <= M -> rounded neg (inject_Z M * 10 ^ E) (round_decimal neg M E).
Proof.
  intros HM. destruct M as [|p|p]; [| |lia].
  - simpl round_decimal. cbn [rounded]. split; [done|].
    pose proof (bpow_pos (SpecFloat.emin prec emax)).
    change (inject_Z 0) with 0%Q. nra.
  - apply round_decimal_rounded.
Qed.

(** [float] returns the value of a literal rounded to binary64. *)
Lemma literal_rounded l :
  wf_literal l = true ->
  exists x, py_float (render l) = Some x /\
    rounded (is_minus (lit_sign l)) (magnitude l) x.
Proof.
  intros Hwf. eexists. split; [now apply py_float_literal|].
  eapply rounded_comp; [apply magnitude_mantissa|].
  apply round_decimal_rounded_Z, decimal_nonneg.
Qed.

Lemma render_field l : wf_literal l = true -> field (render l) = true.
Proof.
  intros Hwf. unfold field. apply forallb_of_Forall.
  apply render_chars; [done|intros d Hd; apply (digit_ascii_char d Hd)|..];
    reflexivity.
Qed.

Lemma render_numeric l : wf_literal l = true -> numeric (render l) = true.
Proof.
  intros Hwf. unfold numeric. rewrite render_field by done. simpl.
  apply bool_decide_eq_true. rewrite py_float_literal by done. eauto.
Qed.

(** An integer literal below 2^53 is cast to the integer it writes. *)
Lemma integer_literal_cast l :
  wf_literal l = true -> is_integer_literal l = true ->
  decimal (lit_int l) < 2 ^ prec ->
  exists x, py_float (render l) = Some x /\
    astype_int x
    = if is_minus (lit_sign l) then - decimal (lit_int l)
      else decimal (lit_int l).
Proof.
  intros Hwf Hint Hsmall. eexists. split; [now apply py_float_literal|].
  unfold is_integer_literal in Hint.
  apply andb_prop in Hint as [Hint Hex]. apply andb_prop in Hint as [_ Hfr].
  destruct (lit_frac l) as [|f fp]; [|done].
  destruct (lit_exp l) as [ex|]; [done|]. rewrite app_nil_r.
  change (exp_value None - Z.of_nat (length (@nil nat))) with 0.
  pose proof (decimal_nonneg (lit_int l)) as Hnn.
  unfold round_decimal. destruct (decimal (lit_int l)) as [|p|p]; [| |lia].
  - now destruct (is_minus (lit_sign l)).
  - simpl Z.leb. cbv iota. rewrite Z.pow_0_r, Z.mul_1_r. unfold binary_normalize.
    destruct (is_minus (lit_sign l));
      [exact (astype_int_small true p Hsmall)
      |exact (astype_int_small false p Hsmall)].
Qed.

End Literals.

(** ** The script on a matrix *)

Section Script.

Lemma getcol_matrix m k :
  (k < length (hd [] m))%nat -> getcol (Arr2 m) k = Ok (column k m).
Proof. intros H. unfold getcol. now rewrite decide_True. Qed.

Lemma getcol_inv a k c :
  getcol a k = Ok c ->
  exists m, a = Arr2 m /\ (k < length (hd [] m))%nat /\ c = column k m.
Proof.
  destruct a as [x|xs|m]; simpl; try discriminate.
  destruct (decide (k < length (hd [] m))%nat); [|discriminate].
  intros [= <-]. now exists m.
Qed.

Lemma load_matrix w content m :
  files w !! fname = Some content ->
  genfromtxt content 1 = Ok (Arr2 m) ->
  (5 <= length (hd [] m))%nat ->
  load w = (Ok (columns_of m), w).
Proof.
  intros Hf Hg Hm. unfold load, bind, np_genfromtxt, lift, ret.
  rewrite Hf, Hg. rewrite !getcol_matrix by lia. reflexivity.
Qed.

Lemma load_inv w tb w' :
  load w = (Ok tb, w') ->
  exists content m,
    files w !! fname = Some content /\ genfromtxt content 1 = Ok (Arr2 m) /\
    (5 <= length (hd [] m))%nat /\ tb = columns_of m /\ w' = w.
Proof.
  unfold load, bind, np_genfromtxt, lift, ret.
  destruct (files w !! fname) as [content|] eqn:Hf; [|discriminate].
  destruct (genfromtxt content 1) as [a|e] eqn:Hg; [|discriminate].
  destruct (getcol a 0) as [c0|] eqn:H0; [|discriminate].
  destruct (getcol a 1) as [c1|] eqn:H1; [|discriminate].
  destruct (getcol a 2) as [c2|] eqn:H2; [|discriminate].
  destruct (getcol a 3) as [c3|] eqn:H3; [|discriminate].
  destruct (getcol a 4) as [c4|] eqn:H4; [|discriminate].
  intros [= <- <-].
  apply getcol_inv in H4 as (m & -> & Hm & ->).
  apply getcol_inv in H0 as (? & [= <-] & _ & ->).
  apply getcol_inv in H1 as (? & [= <-] & _ & ->).
  apply getcol_inv in H2 as (? & [= <-] & _ & ->).
  apply getcol_inv in H3 as (? & [= <-] & _ & ->).
  exists content, m. repeat split; [done|lia].
Qed.

Lemma load_world w : (load w).2 = w.
Proof.
  destruct (load w) as [[tb|e] w'] eqn:E.
  - now apply load_inv in E as (? & ? & _ & _ & _ & _ & ->).
  - revert E. unfold load, bind, np_genfromtxt, lift, ret.
    destruct (files w !! fname) as [content|]; [|now intros [= _ <-]].
    destruct (genfromtxt content 1) as [a|]; [|now intros [= _ <-]].
    repeat (match goal with
            | |- context [getcol a ?k] => destruct (getcol a k)
            end; [|now intros [= _ <-]]).
    discriminate.
Qed.

Lemma inspect_run tb w : inspect tb w = (Ok tt, write (printed_of tb) w).
Proof.
  unfold inspect, bind, print, write, printed_of. simpl.
  now rewrite <- !app_assoc.
Qed.

Lemma script_matrix w content m :
  files w !! fname = Some content ->
  genfromtxt content 1 = Ok (Arr2 m) ->
  (5 <= length (hd [] m))%nat ->
  script w = (Ok (columns_of m), write (printed_of (columns_of m)) w).
Proof.
  intros Hf Hg Hm. unfold script, bind, np_genfromtxt, lift, ret, print.
  rewrite Hf, Hg. simpl files. rewrite !getcol_matrix by lia.
  unfold write, printed_of. simpl. now rewrite <- !app_assoc.
Qed.

(** Where [load] returns a table, the script is [load], then [inspect]. *)
Lemma script_load_inspect w tb w' :
  load w = (Ok tb, w') -> script w = (Ok tb, (inspect tb w).2).
Proof.
  intros H. apply load_inv in H as (content & m & Hf & Hg & Hm & -> & ->).
  now rewrite inspect_run, (script_matrix w content m Hf Hg Hm).
Qed.

(** Where the bulk load gives an array of one dimension, the script
    prints its shape and stops at line 22. *)
Lemma script_vector w content xs :
  files w !! fname = Some content ->
  genfromtxt content 1 = Ok (Arr1 xs) ->
  load w = (Raise IndexError, w) /\
  script w = (Raise IndexError,
              write [PShape "  Shape of data: " [length xs]] w).
Proof.
  intros Hf Hg. unfold load, script, bind, np_genfromtxt, lift, ret, print.
  now rewrite Hf, Hg.
Qed.

Lemma column_length k m : length (column k m) = length m.
Proof. apply length_map. Qed.

Lemma column_lookup k (rows : list (list text)) i r tok :
  rows !! i = Some r -> r !! k = Some tok ->
  column k (map (map loose_call) rows) !! i = Some (loose_call tok).
Proof.
  intros Hr Hk. unfold column. rewrite !list_lookup_fmap, Hr. simpl.
  rewrite nth_lookup, list_lookup_fmap, Hk. reflexivity.
Qed.

Lemma squeeze_matrix (m : list (list float)) :
  (2 <= length m)%nat -> (2 <= length (hd [] m))%nat ->
  squeeze (np_array m) = Arr2 m.
Proof.
  destruct m as [|r [|r' m]]; simpl; try lia. intros _ H.
  destruct r as [|x [|y r]]; simpl in *; (lia || reflexivity).
Qed.

Lemma take_three {A} (l : list A) :
  (3 <= length l)%nat -> exists a b c, take 3 l = [a; b; c].
Proof.
  destruct l as [|a [|b [|c l]]]; simpl; try lia. intros _. now exists a, b, c.
Qed.

Lemma forallb_lookup {A} (f : A -> bool) l i x :
  forallb f l = true -> l !! i = Some x -> f x = true.
Proof.
  revert i. induction l as [|y l IH]; intros i H Hi; [done|].
  simpl in H. apply andb_prop in H as [Hy H].
  destruct i as [|i]; simpl in Hi; [now injection Hi as <-|eauto].
Qed.

(** In a file of numeric rows every cell has a value, and column [k] of
    the matrix holds it. *)
Lemma column_cell (rows : list (list text)) i k :
  forallb numeric_row rows = true -> (i < length rows)%nat -> (k < 5)%nat ->
  is_Some (cell rows i k) /\
  column k (map (map loose_call) rows) !! i = cell rows i k.
Proof.
  intros Hrows Hi Hk.
  destruct (lookup_lt_is_Some_2 rows i Hi) as [r Hr].
  pose proof (forallb_lookup _ _ _ _ Hrows Hr) as Hnum.
  unfold numeric_row in Hnum. apply andb_prop in Hnum as [Hlen Hnum].
  apply bool_decide_eq_true in Hlen.
  destruct (lookup_lt_is_Some_2 r k ltac:(lia)) as [tok Htok].
  pose proof (forallb_lookup _ _ _ _ Hnum Htok) as Ht.
  unfold numeric in Ht. apply andb_prop in Ht as [_ Ht].
  apply bool_decide_eq_true in Ht as [x Hx].
  rewrite (column_lookup k rows i r tok Hr Htok).
  unfold cell, loose_call. rewrite Hr. simpl. rewrite Htok. simpl.
  rewrite Hx. split; [now exists x|done].
Qed.

(** Where the text of a cell is a plain integer below 2^53, the cell's
    value casts back to that integer. *)
Lemma int_cell_cast rows i k n :
  int_cell rows i k = Some n ->
  exists x, cell rows i k = Some x /\ (Z.abs n < 2 ^ 53 -> astype_int x = n).
Proof.
  unfold int_cell, cell. destruct (rows !! i) as [r|]; [|discriminate]. simpl.
  destruct (r !! k) as [tok|]; [|discriminate]. simpl.
  apply py_float_signed_int.
Qed.

Lemma numeric_row_of r : numeric_row r = true -> row_of 5 r = true.
Proof.
  unfold numeric_row, row_of. intros H. apply andb_prop in H as [-> H].
  simpl. induction r as [|f r IH]; simpl in *; [done|].
  apply andb_prop in H as [Hf H]. unfold numeric in Hf.
  apply andb_prop in Hf as [-> _]. now apply IH.
Qed.

Lemma numeric_rows_of rows :
  forallb numeric_row rows = true -> forallb (row_of 5) rows = true.
Proof.
  induction rows as [|r rows IH]; simpl; [done|]. intros H.
  apply andb_prop in H as [Hr H]. now rewrite numeric_row_of, IH.
Qed.

(** A file of two or more rows of five fields loads: the matrix holds
    the loose conversion of every field. *)
Lemma load_rows w header (rows : list (list text)) (fnl : bool) :
  files w !! fname = Some (file_text header rows fnl) ->
  forallb no_newline header = true ->
  forallb (row_of 5) rows = true ->
  (2 <= length rows)%nat ->
  let m := map (map loose_call) rows in
  genfromtxt (file_text header rows fnl) 1 = Ok (Arr2 m) /\
  (5 <= length (hd [] m))%nat /\
  shape (Arr2 m) = [length rows; 5%nat].
Proof.
  intros Hf Hh Hrows Hn m.
  assert (Hhd : length (hd [] m) = 5%nat).
  { subst m. destruct rows as [|r rows]; [simpl in Hn; lia|]. simpl.
    rewrite length_map. simpl in Hrows. apply andb_prop in Hrows as [Hr _].
    now apply row_length in Hr. }
  split; [|split].
  - rewrite (genfromtxt_rows 5) by (done || lia).
    f_equal. apply squeeze_matrix; [|lia]. subst m. now rewrite length_map.
  - lia.
  - simpl. rewrite Hhd. subst m. now rewrite length_map.
Qed.

End Script.

(** ** The sample files, run *)

Example file_ex_text :
  file_ex = txt "idx,P,R,nu,type" ++ [LF] ++ txt "0,0.12,1.50,440.0,1" ++ [LF]
            ++ txt "1,0.34,1.55,441.2,0" ++ [LF]
            ++ txt "2,0.56,1.60,442.5,-1" ++ [LF]
            ++ txt "3,0.78,1.65,443.1,1" ++ [LF].
Proof. reflexivity. Qed.

Example file_ex_run :
  (script (world_of file_ex)).2.(stdout)
  = [ PShape "  Shape of data: " [4; 5]%nat;
      PInts [0; 1; 2];
      PFloats [S754_finite false 8646911284551352 (-56);
               S754_finite false 6124895493223875 (-54);
               S754_finite false 5044031582654956 (-53)];
      PFloats [S754_finite false 6755399441055744 (-52);
               S754_finite false 6980579422424269 (-52);
               S754_finite false 7205759403792794 (-52)];
      PFloats [S754_finite false 7740561859543040 (-44);
               S754_finite false 7761672482796339 (-44);
               S754_finite false 7784542324654080 (-44)];
      PInts [1; 0; -1] ].
Proof. vm_compute. reflexivity. Qed.

(** A row of four fields among rows of five: [genfromtxt] raises. *)
Example short_row_raises :
  genfromtxt (file_text header_ex
                [row0; map txt ["1"; "0.34"; "1.55"; "0"]%string; row2] true) 1
  = Raise ValueError.
Proof. vm_compute. reflexivity. Qed.

(** Rows of four fields throughout: a matrix of four columns, and no
    column 4 to take. *)
Example four_columns_raise :
  (script (world_of (file_text header_ex
                       [map txt ["0"; "0.12"; "1.50"; "440.0"]%string;
                        map txt ["1"; "0.34"; "1.55"; "441.2"]%string] true))).1
  = Raise IndexError.
Proof. vm_compute. reflexivity. Qed.

Example file_ex_label :
  type <$> (match (load (world_of file_ex)).1 with Ok tb => Some tb | _ => None end)
  = Some [1; 0; -1; 1].
Proof. vm_compute. reflexivity. Qed.

(** ** The loader *)

Section Loader.

Variable w : World.
Variable header : text.
Variable rows : list (list text).
Variable fnl : bool.
Hypothesis Hfile : files w !! fname = Some (file_text header rows fnl).
Hypothesis Hheader : forallb no_newline header = true.

(** C3: a header line followed by N >= 3 rows of exactly five numeric
    fields each loads into a table with [rowCount = N] and five sequences
    of length N, whatever N is. *)
Theorem load_row_count :
  forallb numeric_row rows = true -> (3 <= length rows)%nat ->
  exists tb, load w = (Ok tb, w) /\
    rowCount tb = length rows /\
    length (index tb) = length rows /\ length (P tb) = length rows /\
    length (R tb) = length rows /\ length (freq tb) = length rows /\
    length (type tb) = length rows.
Proof.
  intros Hrows Hn. apply numeric_rows_of in Hrows.
  destruct (load_rows w header rows fnl Hfile Hheader Hrows) as (Hg & Hm & Hs);
    [lia|].
  exists (columns_of (map (map loose_call) rows)). split.
  - now apply (load_matrix w _ _ Hfile).
  - unfold rowCount. simpl data. rewrite Hs. simpl.
    rewrite !length_map, !column_length, !length_map. tauto.
Qed.

(** C6: on a run over a well-formed file of N >= 3 rows, six [print] calls
    write, in this order, the shape (N, 5) and the first three elements of
    index, phase, resonance, frequency and label; [inspect] is these six
    calls and the script leaves the same output. *)
Theorem inspect_six_lines :
  forallb numeric_row rows = true -> (3 <= length rows)%nat ->
  exists tb a1 a2 a3 p1 p2 p3 r1 r2 r3 f1 f2 f3 b1 b2 b3,
    load w = (Ok tb, w) /\
    inspect tb w
    = (Ok tt, write [ PShape "  Shape of data: " [length rows; 5%nat];
                      PInts [a1; a2; a3]; PFloats [p1; p2; p3];
                      PFloats [r1; r2; r3]; PFloats [f1; f2; f3];
                      PInts [b1; b2; b3] ] w) /\
    script w = (Ok tb, (inspect tb w).2) /\
    take 3 (index tb) = [a1; a2; a3] /\ take 3 (P tb) = [p1; p2; p3] /\
    take 3 (R tb) = [r1; r2; r3] /\ take 3 (freq tb) = [f1; f2; f3] /\
    take 3 (type tb) = [b1; b2; b3].
Proof.
  intros Hrows Hn. apply numeric_rows_of in Hrows.
  destruct (load_rows w header rows fnl Hfile Hheader Hrows) as (Hg & Hm & Hs);
    [lia|].
  set (tb := columns_of (map (map loose_call) rows)).
  assert (Hlen : forall k, (3 <= length (column k (map (map loose_call) rows)))%nat).
  { intros k. now rewrite column_length, length_map. }
  destruct (take_three (index tb)) as (a1 & a2 & a3 & Ha);
    [simpl; now rewrite length_map|].
  destruct (take_three (P tb)) as (p1 & p2 & p3 & Hp); [apply Hlen|].
  destruct (take_three (R tb)) as (r1 & r2 & r3 & Hr); [apply Hlen|].
  destruct (take_three (freq tb)) as (f1 & f2 & f3 & Hf); [apply Hlen|].
  destruct (take_three (type tb)) as (b1 & b2 & b3 & Hb);
    [simpl; now rewrite length_map|].
  exists tb, a1, a2, a3, p1, p2, p3, r1, r2, r3, f1, f2, f3, b1, b2, b3.
  split; [now apply (load_matrix w _ _ Hfile)|].
  rewrite inspect_run. split; [|split; [|done]].
  - unfold printed_of. now rewrite Ha, Hp, Hr, Hf, Hb, <- Hs.
  - now apply (script_matrix w _ _ Hfile).
Qed.

(** C4, for two or more rows: in a well-formed file and for every row
    [i], [index[i]] is the value of the text in column 0 cast to an
    integer, [phase[i]], [resonance[i]] and [frequency[i]] are the
    binary64 values of the text in columns 1, 2 and 3, and [label[i]] is
    the value of the text in column 4 cast to an integer; where column 0
    or 4 holds a plain integer below 2^53, [index[i]] or [label[i]] is
    that very integer.  Where a field is written as a decimal literal,
    the binary64 value is the value of the literal rounded to nearest:
    a valid binary64 within half a unit in its last place of what the
    digits write, zero or infinite only beyond the range of binary64;
    an integer literal below 2^53 is cast to the integer its digits
    write. *)
Theorem load_columns :
  forallb numeric_row rows = true -> (2 <= length rows)%nat ->
  exists tb, load w = (Ok tb, w) /\
    forall i, (i < length rows)%nat ->
      (forall k, (k < 5)%nat -> is_Some (cell rows i k)) /\
      index tb !! i = astype_int <$> cell rows i 0 /\
      P tb !! i = cell rows i 1 /\
      R tb !! i = cell rows i 2 /\
      freq tb !! i = cell rows i 3 /\
      type tb !! i = astype_int <$> cell rows i 4 /\
      (forall n, int_cell rows i 0 = Some n -> Z.abs n < 2 ^ 53 ->
                 index tb !! i = Some n) /\
      (forall n, int_cell rows i 4 = Some n -> Z.abs n < 2 ^ 53 ->
                 type tb !! i = Some n) /\
      forall r k l, rows !! i = Some r -> r !! k = Some (render l) ->
        wf_literal l = true ->
        exists x, rounded (is_minus (lit_sign l)) (magnitude l) x /\
          (k = 0%nat -> index tb !! i = Some (astype_int x)) /\
          (k = 1%nat -> P tb !! i = Some x) /\
          (k = 2%nat -> R tb !! i = Some x) /\
          (k = 3%nat -> freq tb !! i = Some x) /\
          (k = 4%nat -> type tb !! i = Some (astype_int x)) /\
          (is_integer_literal l = true -> decimal (lit_int l) < 2 ^ 53 ->
           astype_int x = if is_minus (lit_sign l) then - decimal (lit_int l)
                          else decimal (lit_int l)).
Proof.
  intros Hrows Hn. pose proof (numeric_rows_of rows Hrows) as Hrows'.
  destruct (load_rows w header rows fnl Hfile Hheader Hrows' Hn)
    as (Hg & Hm & Hs).
  exists (columns_of (map (map loose_call) rows)).
  split; [now apply (load_matrix w _ _ Hfile)|].
  intros i Hi.
  assert (Hc : forall k, (k < 5)%nat ->
            is_Some (cell rows i k) /\
            column k (map (map loose_call) rows) !! i = cell rows i k)
    by (intros k Hk; now apply column_cell).
  split; [intros k Hk; now apply Hc|]. cbn [index P R freq type columns_of].
  rewrite !list_lookup_fmap.
  rewrite (proj2 (Hc 0%nat ltac:(lia))), (proj2 (Hc 1%nat ltac:(lia))),
    (proj2 (Hc 2%nat ltac:(lia))), (proj2 (Hc 3%nat ltac:(lia))),
    (proj2 (Hc 4%nat ltac:(lia))).
  do 5 (split; [reflexivity|]). split; [|split].
  - intros n Hcell Hsmall.
    apply int_cell_cast in Hcell as (x & -> & Hx). simpl. f_equal. auto.
  - intros n Hcell Hsmall.
    apply int_cell_cast in Hcell as (x & -> & Hx). simpl. f_equal. auto.
  - intros r k l Hr Hk Hwf.
    destruct (literal_rounded l Hwf) as (x & Hx & Hround).
    assert (Hcell : cell rows i k = Some x).
    { unfold cell. rewrite Hr. simpl. rewrite Hk. exact Hx. }
    exists x. split; [exact Hround|].
    repeat split; try (intros ->; now rewrite Hcell).
    intros Hint Hsmall.
    destruct (integer_literal_cast l Hwf Hint Hsmall) as (x' & Hx' & Hcast).
    rewrite Hx in Hx'. now injection Hx' as <-.
Qed.

(** C1, as the code has it: a non-numeric token does not make [load]
    fail.  A file of a header line and two or more rows of five fields
    each, the fields free of commas, [#], blanks and line ends, loads,
    and an ASCII field [float] rejects is held as NaN in the phase,
    resonance and frequency columns. *)
Theorem load_non_numeric_nan :
  forallb (row_of 5) rows = true -> (2 <= length rows)%nat ->
  exists tb, load w = (Ok tb, w) /\
    forall i r tok, rows !! i = Some r ->
      forallb is_ascii tok = true -> py_float tok = None ->
      (r !! 1%nat = Some tok -> P tb !! i = Some nan) /\
      (r !! 2%nat = Some tok -> R tb !! i = Some nan) /\
      (r !! 3%nat = Some tok -> freq tb !! i = Some nan).
Proof.
  intros Hrows Hn.
  destruct (load_rows w header rows fnl Hfile Hheader Hrows Hn)
    as (Hg & Hm & Hs).
  exists (columns_of (map (map loose_call) rows)).
  split; [now apply (load_matrix w _ _ Hfile)|].
  intros i r tok Hr _ Htok. simpl.
  assert (Hnan : loose_call tok = nan) by (unfold loose_call; now rewrite Htok).
  repeat split; intros Hk; now rewrite (column_lookup _ rows i r tok Hr Hk), Hnan.
Qed.

(** C10: the casts of the index and label columns drop the fraction:
    where the text in column 0 or column 4 of a well-formed file has a
    value that is no integer, [load] succeeds all the same and the table
    holds that value truncated toward zero. *)
Theorem load_truncates :
  forallb numeric_row rows = true -> (2 <= length rows)%nat ->
  exists tb, load w = (Ok tb, w) /\
    forall i x, is_finite x = true -> ~ is_integer (SF2Q x) ->
      (cell rows i 0 = Some x -> index tb !! i = Some (Qtrunc (SF2Q x))) /\
      (cell rows i 4 = Some x -> type tb !! i = Some (Qtrunc (SF2Q x))).
Proof.
  intros Hrows Hn. pose proof (numeric_rows_of rows Hrows) as Hrows'.
  destruct (load_rows w header rows fnl Hfile Hheader Hrows' Hn)
    as (Hg & Hm & Hs).
  exists (columns_of (map (map loose_call) rows)).
  split; [now apply (load_matrix w _ _ Hfile)|].
  intros i x Hfin Hni.
  assert (Hcast : forall k, (k < 5)%nat -> cell rows i k = Some x ->
            map astype_int (column k (map (map loose_call) rows)) !! i
            = Some (Qtrunc (SF2Q x))).
  { intros k Hk Hx.
    assert (Hi : (i < length rows)%nat).
    { apply lookup_lt_is_Some. unfold cell in Hx.
      destruct (rows !! i); [eauto|discriminate]. }
    destruct (column_cell rows i k Hrows Hi Hk) as [_ Hc].
    rewrite list_lookup_fmap, Hc, Hx. simpl. f_equal.
    apply astype_int_trunc; [done|].
    destruct x as [s0|s0| |s0 m0 e0]; try discriminate.
    - destruct Hni. now exists 0.
    - apply non_integer_range; [|done].
      unfold cell in Hx. destruct (rows !! i) as [r|]; [|discriminate].
      simpl in Hx. destruct (r !! k) as [tok|]; [|discriminate].
      now apply py_float_bound in Hx. }
  split; intros Hx; simpl; apply Hcast; (lia || done).
Qed.

End Loader.

(** C5: every table [load] returns has five sequences of one length, the
    row count, and the script ends with the table as [load] built it: the
    six [print] calls change none of its variables. *)
Theorem table_invariant w tb w' :
  load w = (Ok tb, w') ->
  length (index tb) = rowCount tb /\ length (P tb) = rowCount tb /\
  length (R tb) = rowCount tb /\ length (freq tb) = rowCount tb /\
  length (type tb) = rowCount tb /\
  (script w).1 = Ok tb.
Proof.
  intros H. apply load_inv in H as (content & m & Hf & Hg & Hm & -> & ->).
  rewrite (script_matrix w content m Hf Hg Hm).
  unfold rowCount. simpl. rewrite !length_map, !column_length. tauto.
Qed.

(** The result of [load] depends on the contents of the file alone. *)
Lemma load_contents w1 w2 :
  files w1 !! fname = files w2 !! fname -> (load w1).1 = (load w2).1.
Proof.
  intros H. unfold load, bind, np_genfromtxt, lift, ret. rewrite H.
  destruct (files w2 !! fname) as [content|]; [|done].
  destruct (genfromtxt content 1) as [a|e]; [|done].
  repeat (destruct (getcol a _) as [?|?]; [|done]). done.
Qed.

(** C7: two calls of [load] on one unmodified file give two tables with
    the same contents.  On a well-formed file of two rows or more, [load]
    run twice in a row returns the file's table both times and leaves the
    file as it was, and [load] in any other world that holds the same
    file returns that table too.  Whatever the file, [load] run again gives
    what it gave, and two worlds with the same contents under the file's
    name give the same table or the same exception. *)
Theorem load_twice w w' header (rows : list (list text)) (fnl : bool) :
  files w !! fname = Some (file_text header rows fnl) ->
  files w' !! fname = Some (file_text header rows fnl) ->
  forallb no_newline header = true ->
  forallb numeric_row rows = true -> (2 <= length rows)%nat ->
  exists tb,
    (tb1 <- load ;; tb2 <- load ;; ret (tb1, tb2)) w = (Ok (tb, tb), w) /\
    load w' = (Ok tb, w') /\
    rowCount tb = length rows /\
    (forall i, (i < length rows)%nat ->
       P tb !! i = cell rows i 1 /\ R tb !! i = cell rows i 2 /\
       freq tb !! i = cell rows i 3) /\
    (forall w0, (load (load w0).2).1 = (load w0).1) /\
    forall w1 w2, files w1 !! fname = files w2 !! fname ->
                  (load w1).1 = (load w2).1.
Proof.
  intros Hf Hf' Hh Hrows Hn. pose proof (numeric_rows_of rows Hrows) as Hrows'.
  destruct (load_rows w header rows fnl Hf Hh Hrows' Hn) as (Hg & Hm & Hs).
  exists (columns_of (map (map loose_call) rows)).
  pose proof (load_matrix w _ _ Hf Hg Hm) as Hl.
  split; [unfold bind, ret; now rewrite Hl, Hl|].
  split; [exact (load_matrix w' _ _ Hf' Hg Hm)|].
  split; [unfold rowCount; simpl data; now rewrite Hs|].
  split; [|split; [intros w0; now rewrite load_world|exact load_contents]].
  intros i Hi. simpl.
  now rewrite (proj2 (column_cell rows i 1 Hrows Hi ltac:(lia))),
    (proj2 (column_cell rows i 2 Hrows Hi ltac:(lia))),
    (proj2 (column_cell rows i 3 Hrows Hi ltac:(lia))).
Qed.

(** C9: a header line and exactly one row of five numeric fields: the
    bulk load gives a one-dimensional array of length 5, not a (1, 5)
    matrix; the column extraction raises [IndexError] and there is no
    table, the shape line being all the script prints. *)
Theorem single_row_fails w header r (fnl : bool) :
  files w !! fname = Some (file_text header [r] fnl) ->
  forallb no_newline header = true ->
  numeric_row r = true ->
  genfromtxt (file_text header [r] fnl) 1 = Ok (Arr1 (map loose_call r)) /\
  shape (Arr1 (map loose_call r)) = [5%nat] /\
  load w = (Raise IndexError, w) /\
  script w = (Raise IndexError, write [PShape "  Shape of data: " [5%nat]] w).
Proof.
  intros Hf Hh Hr. apply numeric_row_of in Hr.
  assert (Hlen : length (map loose_call r) = 5%nat)
    by (rewrite length_map; now apply row_length).
  assert (Hg : genfromtxt (file_text header [r] fnl) 1
               = Ok (Arr1 (map loose_call r))).
  { rewrite (genfromtxt_rows 5); [|lia|done|simpl; now rewrite Hr].
    simpl. destruct (map loose_call r) as [|x [|y l]]; simpl in *; done. }
  split; [done|]. split; [simpl; now rewrite Hlen|].
  destruct (script_vector w _ _ Hf Hg) as [Hl Hs].
  now rewrite Hl, Hs, Hlen.
Qed.

(** C8, as the code has it: a header line and no data row: the bulk load
    gives an empty one-dimensional array, of shape (0,); the column
    extraction raises [IndexError], so that [load] fails and builds no
    table, and the script stops after the shape line. *)
Theorem header_only_fails w header (fnl : bool) :
  files w !! fname = Some (file_text header [] fnl) ->
  forallb no_newline header = true ->
  genfromtxt (file_text header [] fnl) 1 = Ok (Arr1 []) /\
  load w = (Raise IndexError, w) /\
  script w = (Raise IndexError, write [PShape "  Shape of data: " [0%nat]] w).
Proof.
  intros Hf Hh.
  assert (Hg : genfromtxt (file_text header [] fnl) 1 = Ok (Arr1 []))
    by (rewrite (genfromtxt_rows 5); [done|lia|done|done]).
  split; [done|]. exact (script_vector w _ [] Hf Hg).
Qed.

(** C2, as the code has it: a slice stops at the end of the sequence, so
    that [inspect] does not fail on a table of fewer than three rows: it
    prints the shape and each sequence whole. *)
Theorem inspect_short_table tb w :
  (rowCount tb < 3)%nat ->
  length (index tb) = rowCount tb -> length (P tb) = rowCount tb ->
  length (R tb) = rowCount tb -> length (freq tb) = rowCount tb ->
  length (type tb) = rowCount tb ->
  inspect tb w
  = (Ok tt, write [ PShape "  Shape of data: " (shape (data tb));
                    PInts (index tb); PFloats (P tb); PFloats (R tb);
                    PFloats (freq tb); PInts (type tb) ] w).
Proof.
  intros Hn H1 H2 H3 H4 H5. rewrite inspect_run. unfold printed_of.
  now rewrite !take_ge by lia.
Qed.

(** ** The claims on the sample files *)

Example file_frac_casts :
  load (world_of file_frac)
  = (Ok (columns_of (map (map loose_call) rows_frac)), world_of file_frac) /\
  index (columns_of (map (map loose_call) rows_frac)) = [0; 2] /\
  type (columns_of (map (map loose_call) rows_frac)) = [1; -1].
Proof. vm_compute. auto. Qed.

Lemma load_row_count_witness :
  (files (world_of file_ex) !! fname = Some (file_text header_ex rows_ex true) /\
   forallb no_newline header_ex = true /\
   forallb numeric_row rows_ex = true /\ (3 <= length rows_ex)%nat) /\
  exists tb, load (world_of file_ex) = (Ok tb, world_of file_ex) /\
    rowCount tb = 4%nat /\
    length (index tb) = 4%nat /\ length (P tb) = 4%nat /\
    length (R tb) = 4%nat /\ length (freq tb) = 4%nat /\
    length (type tb) = 4%nat.
Proof.
  split; [repeat split; try reflexivity; simpl; lia|].
  apply (load_row_count (world_of file_ex) header_ex rows_ex true);
    [reflexivity|reflexivity|reflexivity|simpl; lia].
Defined.

Lemma load_columns_witness :
  exists tb, load (world_of file_ex) = (Ok tb, world_of file_ex) /\
    forall i, (i < length rows_ex)%nat ->
      (forall k, (k < 5)%nat -> is_Some (cell rows_ex i k)) /\
      index tb !! i = astype_int <$> cell rows_ex i 0 /\
      P tb !! i = cell rows_ex i 1 /\
      R tb !! i = cell rows_ex i 2 /\
      freq tb !! i = cell rows_ex i 3 /\
      type tb !! i = astype_int <$> cell rows_ex i 4 /\
      (forall n, int_cell rows_ex i 0 = Some n -> Z.abs n < 2 ^ 53 ->
                 index tb !! i = Some n) /\
      (forall n, int_cell rows_ex i 4 = Some n -> Z.abs n < 2 ^ 53 ->
                 type tb !! i = Some n) /\
      forall r k l, rows_ex !! i = Some r -> r !! k = Some (render l) ->
        wf_literal l = true ->
        exists x, rounded (is_minus (lit_sign l)) (magnitude l) x /\
          (k = 0%nat -> index tb !! i = Some (astype_int x)) /\
          (k = 1%nat -> P tb !! i = Some x) /\
          (k = 2%nat -> R tb !! i = Some x) /\
          (k = 3%nat -> freq tb !! i = Some x) /\
          (k = 4%nat -> type tb !! i = Some (astype_int x)) /\
          (is_integer_literal l = true -> decimal (lit_int l) < 2 ^ 53 ->
           astype_int x = if is_minus (lit_sign l) then - decimal (lit_int l)
                          else decimal (lit_int l)).
Proof.
  apply (load_columns (world_of file_ex) header_ex rows_ex true);
    [reflexivity|reflexivity|reflexivity|simpl; lia].
Defined.

Lemma inspect_six_lines_witness :
  exists tb a1 a2 a3 p1 p2 p3 r1 r2 r3 f1 f2 f3 b1 b2 b3,
    load (world_of file_ex) = (Ok tb, world_of file_ex) /\
    inspect tb (world_of file_ex)
    = (Ok tt, write [ PShape "  Shape of data: " [4%nat; 5%nat];
                      PInts [a1; a2; a3]; PFloats [p1; p2; p3];
                      PFloats [r1; r2; r3]; PFloats [f1; f2; f3];
                      PInts [b1; b2; b3] ] (world_of file_ex)) /\
    script (world_of file_ex) = (Ok tb, (inspect tb (world_of file_ex)).2) /\
    take 3 (index tb) = [a1; a2; a3] /\ take 3 (P tb) = [p1; p2; p3] /\
    take 3 (R tb) = [r1; r2; r3] /\ take 3 (freq tb) = [f1; f2; f3] /\
    take 3 (type tb) = [b1; b2; b3].
Proof.
  apply (inspect_six_lines (world_of file_ex) header_ex rows_ex true);
    [reflexivity|reflexivity|reflexivity|simpl; lia].
Defined.

Lemma load_non_numeric_nan_witness :
  exists tb, load (world_of file_bad) = (Ok tb, world_of file_bad) /\
    forall i r tok, rows_bad !! i = Some r ->
      forallb is_ascii tok = true -> py_float tok = None ->
      (r !! 1%nat = Some tok -> P tb !! i = Some nan) /\
      (r !! 2%nat = Some tok -> R tb !! i = Some nan) /\
      (r !! 3%nat = Some tok -> freq tb !! i = Some nan).
Proof.
  apply (load_non_numeric_nan (world_of file_bad) header_ex rows_bad true);
    [reflexivity|reflexivity|reflexivity|simpl; lia].
Defined.

Lemma load_truncates_witness :
  exists tb, load (world_of file_frac) = (Ok tb, world_of file_frac) /\
    forall i x, is_finite x = true -> ~ is_integer (SF2Q x) ->
      (cell rows_frac i 0 = Some x -> index tb !! i = Some (Qtrunc (SF2Q x))) /\
      (cell rows_frac i 4 = Some x -> type tb !! i = Some (Qtrunc (SF2Q x))).
Proof.
  apply (load_truncates (world_of file_frac) header_ex rows_frac true);
    [reflexivity|reflexivity|reflexivity|simpl; lia].
Defined.

Lemma table_invariant_witness :
  load (world_of file_ex) = (Ok table_ex, world_of file_ex) /\
  length (index table_ex) = rowCount table_ex /\
  length (P table_ex) = rowCount table_ex /\
  length (R table_ex) = rowCount table_ex /\
  length (freq table_ex) = rowCount table_ex /\
  length (type table_ex) = rowCount table_ex /\
  (script (world_of file_ex)).1 = Ok table_ex.
Proof.
  assert (H : load (world_of file_ex) = (Ok table_ex, world_of file_ex))
    by (vm_compute; reflexivity).
  split; [exact H|].
  exact (table_invariant (world_of file_ex) table_ex (world_of file_ex) H).
Defined.

Lemma single_row_fails_witness :
  genfromtxt file_one 1 = Ok (Arr1 (map loose_call row0)) /\
  shape (Arr1 (map loose_call row0)) = [5%nat] /\
  load (world_of file_one) = (Raise IndexError, world_of file_one) /\
  script (world_of file_one)
  = (Raise IndexError,
     write [PShape "  Shape of data: " [5%nat]] (world_of file_one)).
Proof.
  apply (single_row_fails (world_of file_one) header_ex row0 true);
    reflexivity.
Defined.

Lemma header_only_fails_witness :
  genfromtxt file_none 1 = Ok (Arr1 []) /\
  load (world_of file_none) = (Raise IndexError, world_of file_none) /\
  script (world_of file_none)
  = (Raise IndexError,
     write [PShape "  Shape of data: " [0%nat]] (world_of file_none)).
Proof.
  apply (header_only_fails (world_of file_none) header_ex true); reflexivity.
Defined.

Lemma inspect_short_table_witness :
  (rowCount table_two < 3)%nat /\
  inspect table_two (world_of file_two)
  = (Ok tt, write [ PShape "  Shape of data: " (shape (data table_two));
                    PInts (index table_two); PFloats (P table_two);
                    PFloats (R table_two); PFloats (freq table_two);
                    PInts (type table_two) ] (world_of file_two)).
Proof.
  split; [vm_compute; lia|].
  apply (inspect_short_table table_two (world_of file_two));
    [vm_compute; lia|reflexivity..].
Defined.

(** C1 fails on the malformed row of the specification: the third data
    line holds [bad], which [float] rejects, and [load] returns a table
    all the same, with NaN for that frequency. *)
Lemma load_bad_token_succeeds :
  drop 1 (readlines file_bad) !! 2%nat = Some (txt "2,0.56,1.60,bad,-1" ++ [LF]) /\
  split_line (txt "2,0.56,1.60,bad,-1" ++ [LF]) !! 3%nat = Some (txt "bad") /\
  py_float (txt "bad") = None /\
  load (world_of file_bad) = (Ok table_bad, world_of file_bad) /\
  freq table_bad !! 2%nat = Some nan.
Proof. vm_compute. auto. Qed.

(** C2 fails on the table of a file of two rows: [inspect] prints the
    shape and five slices of two elements each, and raises nothing. *)
Lemma inspect_two_rows_succeeds :
  load (world_of file_two) = (Ok table_two, world_of file_two) /\
  rowCount table_two = 2%nat /\
  inspect table_two (world_of file_two)
  = (Ok tt,
     write [ PShape "  Shape of data: " [2%nat; 5%nat];
             PInts [0; 1];
             PFloats [S754_finite false 8646911284551352 (-56);
                      S754_finite false 6124895493223875 (-54)];
             PFloats [S754_finite false 6755399441055744 (-52);
                      S754_finite false 6980579422424269 (-52)];
             PFloats [S754_finite false 7740561859543040 (-44);
                      S754_finite false 7761672482796339 (-44)];
             PInts [1; 0] ] (world_of file_two)).
Proof. vm_compute. auto. Qed.

(** C8 fails on a file that is its header line alone: [load] itself
    raises [IndexError] and returns no table. *)
Lemma load_header_only_raises :
  file_none = txt "idx,P,R,nu,type" ++ [LF] /\
  load (world_of file_none) = (Raise IndexError, world_of file_none).
Proof. vm_compute. auto. Qed.

(** ** The lines of a file and their values *)

Section Lines.

Lemma rstrip_snoc p s c : p c = true -> rstrip p (s ++ [c]) = rstrip p s.
Proof. intros Hc. unfold rstrip. rewrite reverse_snoc. simpl. now rewrite Hc. Qed.

Lemma lstrip_snoc p s c :
  p c = true ->
  lstrip p (s ++ [c]) = lstrip p s ++ [c] \/
  (lstrip p s = [] /\ lstrip p (s ++ [c]) = []).
Proof.
  intros Hc. induction s as [|a s IH]; simpl.
  - rewrite Hc. now right.
  - destruct (p a); [exact IH|now left].
Qed.

(** A stripped character at the end of the text makes no difference. *)
Lemma strip_snoc p s c : p c = true -> strip p (s ++ [c]) = strip p s.
Proof.
  intros Hc. unfold strip.
  destruct (lstrip_snoc p s c Hc) as [->|[-> ->]]; [|done].
  now apply rstrip_snoc.
Qed.

Lemma before_snoc d l c :
  before d (l ++ [c]) = before d l \/ before d (l ++ [c]) = before d l ++ [c].
Proof.
  induction l as [|a l IH]; simpl.
  - destruct (Ascii.eqb c d); auto.
  - destruct (Ascii.eqb a d); [now left|].
    destruct IH as [->| ->]; auto.
Qed.

(** The newline at the end of a line does not change its values. *)
Lemma split_line_newline l : split_line (l ++ [LF]) = split_line l.
Proof.
  unfold split_line. destruct (before_snoc "#" l LF) as [->| ->]; [done|].
  now rewrite strip_snoc.
Qed.

Lemma values_of_cons_empty line lines :
  split_line line = [] -> values_of (line :: lines) = values_of lines.
Proof. intros H. simpl. now rewrite H. Qed.

Lemma values_of_cons_row line lines v :
  split_line line = v -> v <> [] ->
  values_of (line :: lines) = v :: values_of lines.
Proof. intros H Hv. simpl. rewrite H. now destruct v. Qed.

Lemma values_of_nonempty lines : Forall (fun v => v <> []) (values_of lines).
Proof.
  induction lines as [|line lines IH]; simpl; [constructor|].
  destruct (split_line line) eqn:E; [done|]. now constructor.
Qed.

Lemma first_valid_values fhd :
  values_of ((first_valid fhd).1 :: (first_valid fhd).2) = values_of fhd /\
  split_line (first_valid fhd).1 = hd [] (values_of fhd).
Proof.
  induction fhd as [|line fhd IH]; [done|]. simpl.
  destruct (split_line line) eqn:E; [exact IH|]. simpl. now rewrite E.
Qed.

Lemma parse_lines_values n skip i lines :
  (forallb (fun v => bool_decide (length v = n)) (values_of lines) = true ->
   parse_lines n skip i lines = (values_of lines, [])) /\
  (forallb (fun v => bool_decide (length v = n)) (values_of lines) = false ->
   exists rows bad invalid, parse_lines n skip i lines = (rows, bad :: invalid)).
Proof.
  revert i. induction lines as [|line lines IH]; intros i; simpl.
  - split; [done|discriminate].
  - destruct (IH (S i)) as [IH1 IH2].
    destruct (parse_lines n skip (S i) lines) as [rows invalid] eqn:Ep.
    destruct (split_line line) as [|f v] eqn:E.
    + split; [exact IH1|exact IH2].
    + simpl forallb. destruct (decide (length (f :: v) = n)) as [Hn|Hn].
      * rewrite bool_decide_eq_true_2 by done. simpl. split.
        -- intros H. specialize (IH1 H). now injection IH1 as -> ->.
        -- intros H. destruct (IH2 H) as (rows' & bad & inv' & [= -> ->]).
           eauto.
      * rewrite bool_decide_eq_false_2 by done. simpl. split; [discriminate|].
        intros _. eauto.
Qed.

(** [genfromtxt] in one piece: the array of the values of the lines after
    the skipped ones. *)
Lemma genfromtxt_values content skip :
  genfromtxt content skip = array_of (values_of (drop skip (readlines content))).
Proof.
  unfold genfromtxt, array_of.
  destruct (first_valid_values (drop skip (readlines content))) as [Hv Hf].
  destruct (first_valid (drop skip (readlines content))) as [fl rest].
  cbn [fst snd] in Hv, Hf. rewrite Hf.
  destruct (parse_lines_values (length (hd [] (values_of (drop skip (readlines content)))))
              skip 0 (fl :: rest)) as [H1 H2].
  rewrite Hv in H1, H2.
  destruct (forallb _ (values_of (drop skip (readlines content)))) eqn:E.
  - now rewrite H1.
  - destruct (H2 eq_refl) as (rows & bad & invalid & ->). reflexivity.
Qed.

Lemma values_of_cons_eq a b x y :
  split_line a = split_line b -> values_of x = values_of y ->
  values_of (a :: x) = values_of (b :: y).
Proof. intros H1 H2. simpl. now rewrite H1, H2. Qed.

Lemma readlines_eol l eol rest :
  forallb no_newline l = true -> is_eol eol = true ->
  (eol = [CR] -> head rest <> Some LF) ->
  readlines (l ++ eol ++ rest) = (l ++ [LF]) :: readlines rest.
Proof.
  intros Hl Heol Hrest. induction l as [|c l IH]; simpl.
  - apply bool_decide_eq_true in Heol.
    rewrite !elem_of_cons, elem_of_nil in Heol.
    destruct Heol as [->|[->|[->|[]]]]; try reflexivity.
    simpl. destruct rest as [|c' rest]; [done|].
    destruct (Ascii.eqb c' LF) eqn:E; [|done].
    apply Ascii.eqb_eq in E as ->. now destruct Hrest.
  - simpl in Hl. apply andb_prop in Hl as [Hc Hl]. unfold no_newline in Hc.
    apply negb_true_iff, orb_false_iff in Hc as [-> ->].
    now rewrite IH.
Qed.

Lemma intercalate_no_LF ls (fnl : bool) :
  Forall (fun l => forallb no_newline l = true) ls ->
  Forall (fun c => c <> LF) (lines_text [CR] ls fnl).
Proof.
  intros H. unfold lines_text. apply Forall_app. split.
  - induction H as [|l ls Hl Hls IH]; [constructor|].
    assert (Hl' : Forall (fun c => c <> LF) l).
    { clear -Hl. induction l as [|c l IH]; [constructor|]. simpl in Hl.
      apply andb_prop in Hl as [Hc Hl]. constructor; [|auto].
      intros ->. discriminate Hc. }
    destruct ls as [|l' ls']; simpl; [done|].
    apply Forall_app. split; [done|]. constructor; [discriminate|exact IH].
  - destruct fnl; repeat constructor. discriminate.
Qed.

Lemma head_no_LF (s : text) : Forall (fun c => c <> LF) s -> head s <> Some LF.
Proof. destruct 1 as [|c s Hc _]; simpl; [done|]. now intros [= ->]. Qed.

(** The lines of a file do not depend on which line terminator it uses. *)
Lemma readlines_lines_text eol ls (fnl : bool) :
  is_eol eol = true ->
  Forall (fun l => forallb no_newline l = true) ls ->
  readlines (lines_text eol ls fnl) = readlines (lines_text [LF] ls fnl).
Proof.
  intros Heol H. induction H as [|l ls Hl Hls IH].
  - unfold lines_text. simpl. destruct fnl; [|done].
    apply bool_decide_eq_true in Heol.
    rewrite !elem_of_cons, elem_of_nil in Heol.
    now destruct Heol as [->|[->|[->|[]]]].
  - destruct ls as [|l' ls'].
    + unfold lines_text. simpl. destruct fnl; [|done].
      rewrite <- (app_nil_r eol), <- (app_nil_r [LF]).
      rewrite !readlines_eol; done.
    + change (lines_text eol (l :: l' :: ls') fnl)
        with ((l ++ eol ++ intercalate eol (l' :: ls'))
              ++ (if fnl then eol else [])).
      change (lines_text [LF] (l :: l' :: ls') fnl)
        with ((l ++ [LF] ++ intercalate [LF] (l' :: ls'))
              ++ (if fnl then [LF] else [])).
      rewrite <- !app_assoc.
      change (intercalate eol (l' :: ls') ++ (if fnl then eol else []))
        with (lines_text eol (l' :: ls') fnl).
      change (intercalate [LF] (l' :: ls') ++ (if fnl then [LF] else []))
        with (lines_text [LF] (l' :: ls') fnl).
      rewrite !readlines_eol; try done.
      * now rewrite IH.
      * intros ->. apply head_no_LF. now apply intercalate_no_LF.
Qed.

(** The values of the lines of a file are those of its lines of text. *)
Lemma values_readlines ls (fnl : bool) :
  Forall (fun l => forallb no_newline l = true) ls ->
  values_of (readlines (lines_text [LF] ls fnl)) = values_of ls.
Proof.
  intros H. induction H as [|l ls Hl Hls IH].
  - now destruct fnl.
  - destruct ls as [|l' ls'].
    + unfold lines_text. simpl intercalate. destruct fnl.
      * rewrite <- (app_nil_r [LF]), readlines_eol by done.
        apply values_of_cons_eq; [apply split_line_newline|done].
      * rewrite app_nil_r. destruct l as [|c l]; [done|].
        now rewrite readlines_last.
    + change (lines_text [LF] (l :: l' :: ls') fnl)
        with ((l ++ [LF] ++ intercalate [LF] (l' :: ls'))
              ++ (if fnl then [LF] else [])).
      rewrite <- !app_assoc.
      change (intercalate [LF] (l' :: ls') ++ (if fnl then [LF] else []))
        with (lines_text [LF] (l' :: ls') fnl).
      rewrite readlines_eol by done.
      apply values_of_cons_eq; [apply split_line_newline|exact IH].
Qed.

(** The values [genfromtxt] sees with [skip_header=1]: those of the lines
    after the first. *)
Lemma values_after_header header ls (fnl : bool) :
  forallb no_newline header = true ->
  Forall (fun l => forallb no_newline l = true) ls ->
  values_of (drop 1 (readlines (lines_text [LF] (header :: ls) fnl)))
  = values_of ls.
Proof.
  intros Hh H. destruct ls as [|l ls].
  - unfold lines_text. simpl intercalate. destruct fnl.
    + now rewrite <- (app_nil_r [LF]), readlines_eol.
    + rewrite app_nil_r. destruct header as [|c h]; [done|].
      now rewrite readlines_last.
  - change (lines_text [LF] (header :: l :: ls) fnl)
      with ((header ++ [LF] ++ intercalate [LF] (l :: ls))
            ++ (if fnl then [LF] else [])).
    rewrite <- !app_assoc.
    change (intercalate [LF] (l :: ls) ++ (if fnl then [LF] else []))
      with (lines_text [LF] (l :: ls) fnl).
    rewrite readlines_eol by done. simpl drop.
    now apply values_readlines.
Qed.

Lemma join_intercalate d ls : join d ls = intercalate [d] ls.
Proof.
  induction ls as [|l ls IH]; [done|]. destruct ls as [|l' ls']; [done|].
  simpl in *. now rewrite IH.
Qed.

Lemma file_text_lines header rows (fnl : bool) :
  file_text header rows fnl
  = lines_text [LF] (header :: map (join ",") rows) fnl.
Proof. unfold file_text, lines_text. now rewrite join_intercalate. Qed.

Lemma fields_row_of r : fields_row r = true -> row_of (length r) r = true.
Proof.
  unfold fields_row, row_of. intros H. apply andb_prop in H as [_ ->].
  now rewrite bool_decide_eq_true_2.
Qed.

Lemma fields_row_length r : fields_row r = true -> (2 <= length r)%nat.
Proof.
  unfold fields_row. intros H. apply andb_prop in H as [H _].
  now apply bool_decide_eq_true in H.
Qed.

Lemma fields_row_line r :
  fields_row r = true ->
  split_line (join "," r) = r /\ r <> [] /\
  forallb no_newline (join "," r) = true /\
  Forall (fun c => Ascii.eqb c "#" = false) (join "," r).
Proof.
  intros H. pose proof (fields_row_length r H) as Hlen.
  pose proof (fields_row_of r H) as Hrow.
  destruct (split_line_row (length r) r Hlen Hrow) as [Hs _].
  repeat split; [done|now destruct r|now apply (row_line_no_newline (length r))|].
  apply join_Forall; [done|]. apply (row_fields_Forall (length r)); [|done].
  intros c Hc. now apply field_char_inv in Hc.
Qed.

(** The values of a file of rows are the rows. *)
Lemma values_of_rows rows :
  forallb fields_row rows = true ->
  values_of (map (join ",") rows) = rows /\
  Forall (fun l => forallb no_newline l = true) (map (join ",") rows).
Proof.
  induction rows as [|r rows IH]; simpl map; [done|]. simpl forallb.
  intros H. apply andb_prop in H as [Hr Hrows].
  destruct (IH Hrows) as [IH1 IH2].
  destruct (fields_row_line r Hr) as (Hs & Hne & Hnl & _).
  split; [|now constructor].
  rewrite (values_of_cons_row _ _ r Hs Hne). now rewrite IH1.
Qed.

(** [genfromtxt] on a file of rows of two or more fields each. *)
Lemma genfromtxt_fields header rows (fnl : bool) :
  forallb no_newline header = true -> forallb fields_row rows = true ->
  genfromtxt (file_text header rows fnl) 1 = array_of rows.
Proof.
  intros Hh Hrows. destruct (values_of_rows rows Hrows) as [Hv Hnl].
  now rewrite genfromtxt_values, file_text_lines, values_after_header, Hv.
Qed.

End Lines.

Section Items.

Lemma before_sep d x c :
  Forall (fun a => Ascii.eqb a d = false) x -> before d (x ++ d :: c) = x.
Proof.
  induction 1 as [|a x Ha _ IH]; simpl.
  - now rewrite Ascii.eqb_refl.
  - now rewrite Ha, IH.
Qed.

Lemma lstrip_all p s : Forall (fun c => p c = true) s -> lstrip p s = [].
Proof. induction 1 as [|c s Hc _ IH]; simpl; [done|]. now rewrite Hc. Qed.

Lemma Forall_repeat {A} (Q : A -> Prop) x n : Q x -> Forall Q (repeat x n).
Proof. intros Hx. induction n; simpl; now constructor. Qed.

Lemma split_line_blank n : split_line (repeat " " n) = [].
Proof.
  unfold split_line. rewrite before_none by now apply Forall_repeat.
  unfold strip. now rewrite lstrip_all by now apply Forall_repeat.
Qed.

Lemma item_line_values it :
  item_ok it = true ->
  forallb no_newline (item_line it) = true /\
  split_line (item_line it)
  = match it with RowLine r _ => r | _ => [] end /\
  match it with RowLine r _ => r <> [] | _ => True end.
Proof.
  destruct it as [r [c|]|c|n]; simpl; intros H.
  - apply andb_prop in H as [Hr Hc].
    destruct (fields_row_line r Hr) as (Hs & Hne & Hnl & Hsharp).
    split; [|split; [|done]].
    + rewrite forallb_app, Hnl. simpl. now rewrite Hc.
    + unfold split_line in *. rewrite before_sep by done.
      now rewrite before_none in Hs.
  - destruct (fields_row_line r H) as (Hs & Hne & Hnl & _). done.
  - done.
  - split; [|split; [apply split_line_blank|done]].
    apply forallb_of_Forall. now apply Forall_repeat.
Qed.

(** CommentLine lines, blank lines and comments after a row leave the values
    of the rows alone. *)
Lemma values_of_items its :
  forallb item_ok its = true ->
  values_of (map item_line its) = item_rows its /\
  Forall (fun l => forallb no_newline l = true) (map item_line its).
Proof.
  induction its as [|it its IH]; simpl map; [done|]. simpl forallb.
  intros H. apply andb_prop in H as [Hit Hits].
  destruct (IH Hits) as [IH1 IH2].
  destruct (item_line_values it Hit) as (Hnl & Hs & Hne).
  split; [|now constructor].
  destruct it as [r c|c|n].
  - rewrite (values_of_cons_row _ _ r Hs Hne). simpl. now rewrite IH1.
  - rewrite (values_of_cons_empty _ _ Hs). exact IH1.
  - rewrite (values_of_cons_empty _ _ Hs). exact IH1.
Qed.

Lemma items_rows_ok its :
  forallb item_ok its = true -> forallb fields_row (item_rows its) = true.
Proof.
  induction its as [|it its IH]; [done|]. simpl. intros H.
  apply andb_prop in H as [Hit Hits].
  destruct it as [r [c|]|c|n]; simpl in *; auto.
  - apply andb_prop in Hit as [-> _]. auto.
  - rewrite Hit. auto.
Qed.

End Items.

Section Runs.

(** What the script does with the file is what it does with the array
    [genfromtxt] makes of it. *)
Lemma same_array w1 w2 c1 c2 :
  files w1 !! fname = Some c1 -> files w2 !! fname = Some c2 ->
  genfromtxt c1 1 = genfromtxt c2 1 ->
  (load w1).1 = (load w2).1 /\ (script w1).1 = (script w2).1 /\
  (stdout w1 = stdout w2 -> stdout (script w1).2 = stdout (script w2).2).
Proof.
  intros H1 H2 Hg. unfold load, script, bind, np_genfromtxt, lift, ret, print.
  rewrite H1, H2, Hg. destruct (genfromtxt c2 1) as [a|e]; simpl; [|auto].
  destruct (getcol a 0); simpl; [|split; [done|split; [done|now intros ->]]].
  destruct (getcol a 1); simpl; [|split; [done|split; [done|now intros ->]]].
  destruct (getcol a 2); simpl; [|split; [done|split; [done|now intros ->]]].
  destruct (getcol a 3); simpl; [|split; [done|split; [done|now intros ->]]].
  destruct (getcol a 4); simpl; [|split; [done|split; [done|now intros ->]]].
  split; [done|split; [done|now intros ->]].
Qed.

Lemma squeeze_matrix_inv rows m :
  squeeze (np_array rows) = Arr2 m ->
  m = rows /\ (2 <= length rows)%nat /\ length (hd [] rows) <> 1%nat.
Proof.
  destruct rows as [|r [|r' rows]].
  - discriminate.
  - destruct r as [|x [|y l]]; discriminate.
  - destruct r as [|x [|y l]]; simpl; try discriminate;
      intros [= <-]; repeat split; simpl; lia.
Qed.

(** What a matrix from [genfromtxt] is like: two rows or more, all of one
    length, two or more. *)
Lemma array_of_inv vals m :
  array_of vals = Ok (Arr2 m) -> Forall (fun v => v <> []) vals ->
  m = map (map loose_call) vals /\ (2 <= length m)%nat /\
  (2 <= length (hd [] m))%nat /\
  Forall (fun r => length r = length (hd [] m)) m.
Proof.
  unfold array_of. destruct (forallb _ vals) eqn:E; [|discriminate].
  intros [= H] Hne. apply squeeze_matrix_inv in H as (-> & Hrows & Hcols).
  split; [done|]. split; [done|].
  assert (Hhd : length (hd [] (map (map loose_call) vals))
                = length (hd [] vals)).
  { destruct vals; simpl; [done|]. now rewrite length_map. }
  rewrite Hhd in *. split.
  - destruct vals as [|v vals]; simpl in *; [lia|].
    apply Forall_cons in Hne as [Hv _]. destruct v; simpl in *; [done|lia].
  - clear Hrows Hcols Hne Hhd. generalize dependent (length (hd [] vals)).
    intros n E. induction vals as [|v vals IH]; simpl in *; [constructor|].
    apply andb_prop in E as [Hv E]. apply bool_decide_eq_true in Hv.
    constructor; [now rewrite length_map|auto].
Qed.

End Runs.

Section Outcomes.

Lemma array_of_raises vals e : array_of vals = Raise e -> e = ValueError.
Proof. unfold array_of. destruct (forallb _ vals); now intros [= <-]. Qed.

(** The three ways a run over an existing file can go. *)
Lemma script_with_file w content :
  files w !! fname = Some content ->
  (genfromtxt content 1 = Raise ValueError /\
   script w = (Raise ValueError, w) /\ load w = (Raise ValueError, w)) \/
  (exists a, genfromtxt content 1 = Ok a /\
     (forall m, a = Arr2 m -> (length (hd [] m) < 5)%nat) /\
     script w = (Raise IndexError, write [PShape "  Shape of data: " (shape a)] w) /\
     load w = (Raise IndexError, w)) \/
  (exists m, genfromtxt content 1 = Ok (Arr2 m) /\ (5 <= length (hd [] m))%nat /\
     script w = (Ok (columns_of m), write (printed_of (columns_of m)) w) /\
     load w = (Ok (columns_of m), w)).
Proof.
  intros Hf. destruct (genfromtxt content 1) as [a|e] eqn:Hg.
  - right. destruct a as [x|xs|m].
    + left. exists (Arr0 x). split; [done|]. split; [discriminate|].
      unfold script, load, bind, np_genfromtxt, lift, print.
      now rewrite Hf, Hg.
    + left. exists (Arr1 xs). split; [done|]. split; [discriminate|].
      unfold script, load, bind, np_genfromtxt, lift, print.
      now rewrite Hf, Hg.
    + destruct (le_lt_dec 5 (length (hd [] m))) as [Hm|Hm].
      * right. exists m. split; [done|]. split; [done|].
        now rewrite (script_matrix w content m), (load_matrix w content m).
      * left. exists (Arr2 m). split; [done|].
        split; [now intros ? [= <-]|].
        unfold script, load, bind, np_genfromtxt, lift, print, ret.
        rewrite Hf, Hg. unfold getcol.
        repeat (destruct (decide _); simpl; [|done]). lia.
  - left. rewrite genfromtxt_values in Hg. apply array_of_raises in Hg as Hv.
    subst e. rewrite <- genfromtxt_values in Hg. split; [done|].
    unfold script, load, bind, np_genfromtxt, lift, print.
    now rewrite Hf, Hg.
Qed.

Lemma row_of_take n r :
  row_of n r = true -> (5 <= n)%nat -> row_of 5 (take 5 r) = true.
Proof.
  unfold row_of. intros H Hn. apply andb_prop in H as [Hl Hfs].
  apply bool_decide_eq_true in Hl.
  rewrite bool_decide_eq_true_2 by (rewrite length_take; lia). simpl.
  apply forallb_of_Forall. apply Forall_take.
  clear -Hfs. induction r as [|f r IH]; [constructor|]. simpl in Hfs.
  apply andb_prop in Hfs as [Hf Hfs]. constructor; auto.
Qed.

Lemma rows_take n (rows : list (list text)) :
  forallb (row_of n) rows = true -> (5 <= n)%nat ->
  forallb (row_of 5) (take 5 <$> rows) = true.
Proof.
  intros H Hn. induction rows as [|r rows IH]; [done|].
  rewrite fmap_cons. simpl forallb in *. apply andb_prop in H as [Hr H].
  now rewrite (row_of_take n r Hr Hn), IH.
Qed.

End Outcomes.

(** ** Further properties of the script *)

(** X3: the first line of the file is skipped whatever it holds: two
    files that differ in their first line alone load alike and print
    alike. *)
Theorem header_ignored w1 w2 h1 h2 rest :
  forallb no_newline h1 = true -> forallb no_newline h2 = true ->
  files w1 !! fname = Some (h1 ++ LF :: rest) ->
  files w2 !! fname = Some (h2 ++ LF :: rest) ->
  (load w1).1 = (load w2).1 /\ (script w1).1 = (script w2).1 /\
  (stdout w1 = stdout w2 -> stdout (script w1).2 = stdout (script w2).2).
Proof.
  intros H1 H2 Hf1 Hf2. apply (same_array w1 w2 _ _ Hf1 Hf2).
  unfold genfromtxt. now rewrite !readlines_cons.
Qed.

(** X4: on a file of rows of two or more fields each, the script raises
    [ValueError], printing nothing, exactly where some row has another
    number of fields than the first. *)
Theorem ragged_rows_raise w header rows (fnl : bool) :
  files w !! fname = Some (file_text header rows fnl) ->
  forallb no_newline header = true -> forallb fields_row rows = true ->
  script w = (Raise ValueError, w) <->
  exists i r, rows !! i = Some r /\ length r <> length (hd [] rows).
Proof.
  intros Hf Hh Hrows.
  pose proof (genfromtxt_fields header rows fnl Hh Hrows) as Hg.
  assert (Hall : forallb (fun v => bool_decide (length v = length (hd [] rows)))
                   rows = false <->
                 exists i r, rows !! i = Some r /\ length r <> length (hd [] rows)).
  { generalize (length (hd [] rows)). intros n. clear.
    induction rows as [|r rows IH]; simpl.
    - split; [discriminate|]. now intros (i & r & H & _).
    - rewrite andb_false_iff, IH, bool_decide_eq_false. split.
      + intros [H|(i & r' & H & Hn)]; [now exists 0%nat, r|now exists (S i), r'].
      + intros ([|i] & r' & H & Hn); simpl in H;
          [injection H as <-; now left|right; eauto]. }
  rewrite <- Hall. unfold array_of in Hg. clear Hall Hrows.
  destruct (script_with_file w _ Hf)
    as [(Hv & Hs & _)|[(a & Ha & _ & Hs & _)|(m & Ha & _ & Hs & _)]].
  - rewrite Hv in Hg. revert Hg.
    destruct (forallb _ rows); intros Hg; [discriminate Hg|]. now rewrite Hs.
  - rewrite Ha in Hg. revert Hg.
    destruct (forallb _ rows); intros Hg; [|discriminate Hg].
    rewrite Hs. split; discriminate.
  - rewrite Ha in Hg. revert Hg.
    destruct (forallb _ rows); intros Hg; [|discriminate Hg].
    rewrite Hs. split; discriminate.
Qed.

(** X5: rows of two to four fields throughout: the bulk load gives a
    matrix with that many columns, the script prints its shape and raises
    [IndexError] for the column that is not there; there is no table. *)
Theorem few_columns_raise w header (rows : list (list text)) (fnl : bool) n :
  files w !! fname = Some (file_text header rows fnl) ->
  forallb no_newline header = true ->
  forallb (row_of n) rows = true ->
  (2 <= n < 5)%nat -> (2 <= length rows)%nat ->
  script w = (Raise IndexError,
              write [PShape "  Shape of data: " [length rows; n]] w) /\
  load w = (Raise IndexError, w).
Proof.
  intros Hf Hh Hrows Hn HN.
  pose proof (genfromtxt_rows n header rows fnl ltac:(lia) Hh Hrows) as Hg.
  assert (Hhd : length (hd [] (map (map loose_call) rows)) = n).
  { destruct rows as [|r rows]; [simpl in HN; lia|]. simpl.
    rewrite length_map. simpl in Hrows. apply andb_prop in Hrows as [Hr _].
    now apply row_length in Hr. }
  rewrite squeeze_matrix in Hg by (rewrite ?length_map; lia).
  destruct (script_with_file w _ Hf)
    as [(Hv & _)|[(a & Ha & _ & Hs & Hl)|(m & Ha & Hm & _)]].
  - rewrite Hv in Hg. discriminate.
  - rewrite Ha in Hg. injection Hg as ->. rewrite Hs, Hl. simpl.
    now rewrite Hhd, length_map.
  - rewrite Ha in Hg. injection Hg as ->. lia.
Qed.

(** X6: rows of five or more fields throughout: the script takes the
    first five columns and leaves the others alone: the sequences are
    those of the file cut to five columns; only the shape tells. *)
Theorem extra_columns_ignored w w5 header (rows : list (list text))
    (fnl : bool) n :
  files w !! fname = Some (file_text header rows fnl) ->
  files w5 !! fname = Some (file_text header (take 5 <$> rows) fnl) ->
  forallb no_newline header = true ->
  forallb (row_of n) rows = true ->
  (5 <= n)%nat -> (2 <= length rows)%nat ->
  exists tb tb5, load w = (Ok tb, w) /\ load w5 = (Ok tb5, w5) /\
    index tb = index tb5 /\ P tb = P tb5 /\ R tb = R tb5 /\
    freq tb = freq tb5 /\ type tb = type tb5 /\
    shape (data tb) = [length rows; n] /\
    shape (data tb5) = [length rows; 5%nat].
Proof.
  intros Hf Hf5 Hh Hrows Hn HN.
  pose proof (rows_take n rows Hrows Hn) as Hrows5.
  pose proof (genfromtxt_rows n header rows fnl ltac:(lia) Hh Hrows) as Hg.
  pose proof (genfromtxt_rows 5 header _ fnl ltac:(lia) Hh Hrows5) as Hg5.
  assert (Hhd : length (hd [] (map (map loose_call) rows)) = n).
  { destruct rows as [|r rows]; [simpl in HN; lia|]. simpl.
    rewrite length_map. simpl in Hrows. apply andb_prop in Hrows as [Hr _].
    now apply row_length in Hr. }
  assert (Hhd5 : length (hd [] (map (map loose_call) (take 5 <$> rows)))
                 = 5%nat).
  { destruct rows as [|r rows]; [simpl in HN; lia|]. simpl.
    rewrite length_map. simpl in Hrows5. apply andb_prop in Hrows5 as [Hr _].
    now apply row_length in Hr. }
  rewrite squeeze_matrix in Hg by (rewrite ?length_map; lia).
  rewrite squeeze_matrix in Hg5 by (rewrite ?length_map; lia).
  exists (columns_of (map (map loose_call) rows)),
         (columns_of (map (map loose_call) (take 5 <$> rows))).
  split; [apply (load_matrix w _ _ Hf Hg); lia|].
  split; [apply (load_matrix w5 _ _ Hf5 Hg5); lia|].
  assert (Hcol : forall k, (k < 5)%nat ->
            column k (map (map loose_call) rows)
            = column k (map (map loose_call) (take 5 <$> rows))).
  { intros k Hk. unfold column. rewrite !map_map. apply map_ext.
    intros r. rewrite !nth_lookup, !list_lookup_fmap.
    now rewrite lookup_take_lt by lia. }
  simpl. rewrite Hhd, Hhd5, !length_map.
  rewrite (Hcol 0%nat), (Hcol 1%nat), (Hcol 2%nat), (Hcol 3%nat), (Hcol 4%nat)
    by lia.
  repeat split.
Qed.

(** X7: comment lines, blank lines and a comment after a row make no
    difference: the file loads and prints as the file of its rows does. *)
Theorem comments_and_blanks_skipped w1 w2 header its (fnl fnl' : bool) :
  files w1 !! fname
  = Some (lines_text [LF] (header :: map item_line its) fnl) ->
  files w2 !! fname = Some (file_text header (item_rows its) fnl') ->
  forallb no_newline header = true -> forallb item_ok its = true ->
  (load w1).1 = (load w2).1 /\ (script w1).1 = (script w2).1 /\
  (stdout w1 = stdout w2 -> stdout (script w1).2 = stdout (script w2).2).
Proof.
  intros Hf1 Hf2 Hh Hits. apply (same_array w1 w2 _ _ Hf1 Hf2).
  destruct (values_of_items its Hits) as [Hv Hnl].
  rewrite (genfromtxt_fields header _ fnl' Hh (items_rows_ok its Hits)).
  now rewrite genfromtxt_values, values_after_header, Hv.
Qed.

(** X8: the line terminator makes no difference: a file whose lines end
    in CR LF, or in CR alone, loads and prints as the file of the same
    lines ended by LF. *)
Theorem line_endings_same w1 w2 eol ls (fnl : bool) :
  files w1 !! fname = Some (lines_text eol ls fnl) ->
  files w2 !! fname = Some (lines_text [LF] ls fnl) ->
  is_eol eol = true ->
  Forall (fun l => forallb no_newline l = true) ls ->
  (load w1).1 = (load w2).1 /\ (script w1).1 = (script w2).1 /\
  (stdout w1 = stdout w2 -> stdout (script w1).2 = stdout (script w2).2).
Proof.
  intros Hf1 Hf2 Heol Hls. apply (same_array w1 w2 _ _ Hf1 Hf2).
  unfold genfromtxt. now rewrite (readlines_lines_text eol ls fnl Heol Hls).
Qed.

(** X9: whatever the file, a table [load] returns has two rows or more,
    and its matrix is rectangular with five columns or more: no file
    gives a table of no row or of one. *)
Theorem loaded_matrix_shape w tb w' :
  load w = (Ok tb, w') ->
  exists m n, data tb = Arr2 m /\ rowCount tb = length m /\
    (2 <= rowCount tb)%nat /\ (5 <= n)%nat /\
    Forall (fun r => length r = n) m /\
    shape (data tb) = [rowCount tb; n].
Proof.
  intros H. apply load_inv in H as (content & m & Hf & Hg & Hm & -> & ->).
  rewrite genfromtxt_values in Hg.
  apply array_of_inv in Hg as (_ & Hrows & _ & Hrect);
    [|apply values_of_nonempty].
  exists m, (length (hd [] m)). unfold rowCount. simpl. auto 10.
Qed.

(** X10: whatever the file, row [i] of the five sequences comes from row
    [i] of the matrix: the casts of its first and fifth entries and its
    second, third and fourth entries as they are. *)
Theorem loaded_rows_aligned w tb w' :
  load w = (Ok tb, w') ->
  exists m, data tb = Arr2 m /\
    forall i r, m !! i = Some r ->
      exists x0 x1 x2 x3 x4 rest, r = x0 :: x1 :: x2 :: x3 :: x4 :: rest /\
        index tb !! i = Some (astype_int x0) /\ P tb !! i = Some x1 /\
        R tb !! i = Some x2 /\ freq tb !! i = Some x3 /\
        type tb !! i = Some (astype_int x4).
Proof.
  intros H. apply load_inv in H as (content & m & Hf & Hg & Hm & -> & ->).
  rewrite genfromtxt_values in Hg.
  apply array_of_inv in Hg as (_ & _ & _ & Hrect); [|apply values_of_nonempty].
  exists m. split; [done|]. intros i r Hr.
  assert (Hlen : length r = length (hd [] m)).
  { rewrite Forall_forall in Hrect. apply Hrect.
    now apply list_elem_of_lookup_2 in Hr. }
  destruct r as [|x0 [|x1 [|x2 [|x3 [|x4 rest]]]]]; simpl in Hlen; try lia.
  exists x0, x1, x2, x3, x4, rest. split; [done|]. simpl.
  unfold column. rewrite !list_lookup_fmap, Hr. done.
Qed.

Section Padding.

Lemma lstrip_app_all p ws s :
  Forall (fun c => p c = true) ws -> lstrip p (ws ++ s) = lstrip p s.
Proof. induction 1 as [|c ws Hc _ IH]; simpl; [done|]. now rewrite Hc. Qed.

Lemma strip_app_all p s ws :
  Forall (fun c => p c = true) ws -> strip p (s ++ ws) = strip p s.
Proof.
  induction ws as [|c ws IH] using rev_ind; intros H.
  - now rewrite app_nil_r.
  - apply Forall_app in H as [Hws Hc]. apply Forall_cons in Hc as [Hc _].
    rewrite app_assoc, strip_snoc by done. auto.
Qed.

(** Blanks around a field do not change what [float] makes of it. *)
Lemma py_float_pad a b f : py_float (pad a b f) = py_float f.
Proof.
  unfold py_float, pad. rewrite app_assoc, strip_app_all
    by now apply Forall_repeat.
  unfold strip at 1. rewrite lstrip_app_all by now apply Forall_repeat.
  reflexivity.
Qed.

Lemma loose_call_pads p f : pads p f -> loose_call p = loose_call f.
Proof. intros (a & b & ->). unfold loose_call. now rewrite py_float_pad. Qed.

Lemma reverse_repeat {A} (x : A) n : reverse (repeat x n) = repeat x n.
Proof.
  induction n as [|n IH]; [done|]. simpl. rewrite reverse_cons, IH.
  clear IH. induction n as [|n IH]; [done|]. simpl. now rewrite IH.
Qed.

Lemma pads_reverse p f : pads p f -> pads (reverse p) (reverse f).
Proof.
  intros (a & b & ->). exists b, a. unfold pad.
  now rewrite !reverse_app, !reverse_repeat, <- app_assoc.
Qed.

Lemma field_blank f :
  field f = true -> Forall (fun c => is_blank c = false) f.
Proof.
  apply field_Forall. intros c Hc.
  apply field_char_inv in Hc as (_ & _ & H1 & H2 & H3).
  apply bool_decide_eq_false. rewrite !elem_of_cons, elem_of_nil.
  intros [->|[->|[->|[]]]]; discriminate.
Qed.

Lemma pads_lstrip p f :
  pads p f -> field f = true -> pads (lstrip is_blank p) f.
Proof.
  intros (a & b & ->) Hf. unfold pad.
  rewrite lstrip_app_all by now apply Forall_repeat.
  destruct f as [|c f].
  - simpl. rewrite lstrip_all by now apply Forall_repeat. now exists 0%nat, 0%nat.
  - apply field_blank in Hf. apply Forall_cons in Hf as [Hc _].
    simpl. rewrite Hc. now exists 0%nat, b.
Qed.

Lemma field_reverse f : field f = true -> field (reverse f) = true.
Proof.
  intros H. apply forallb_of_Forall, Forall_reverse.
  now apply (field_Forall f (fun c => field_char c = true)).
Qed.

Lemma pads_rstrip p f :
  pads p f -> field f = true -> pads (rstrip is_blank p) f.
Proof.
  intros Hp Hf. unfold rstrip. rewrite <- (reverse_involutive f).
  apply pads_reverse, pads_lstrip; [now apply pads_reverse|].
  now apply field_reverse.
Qed.

Lemma lstrip_sep p x d rest :
  p d = false -> lstrip p (x ++ d :: rest) = lstrip p x ++ d :: rest.
Proof.
  intros Hd. induction x as [|c x IH]; simpl; [now rewrite Hd|].
  now destruct (p c).
Qed.

Lemma rstrip_sep p x d rest :
  p d = false -> rstrip p (rest ++ d :: x) = rest ++ d :: rstrip p x.
Proof.
  intros Hd. unfold rstrip. rewrite reverse_app, reverse_cons, <- app_assoc.
  simpl. rewrite lstrip_sep by done.
  now rewrite reverse_app, reverse_cons, reverse_involutive, <- app_assoc.
Qed.

Lemma join_snoc d ps pl :
  ps <> [] -> join d (ps ++ [pl]) = join d ps ++ d :: pl.
Proof.
  induction ps as [|p ps IH]; [done|]. intros _.
  destruct ps as [|p' ps']; [done|].
  change (join d ((p :: p' :: ps') ++ [pl]))
    with (p ++ d :: join d ((p' :: ps') ++ [pl])).
  rewrite IH by done. simpl. now rewrite <- app_assoc.
Qed.

Lemma join_cons d p ps : ps <> [] -> join d (p :: ps) = p ++ d :: join d ps.
Proof. now destruct ps. Qed.

(** Stripping a line of two or more fields strips its first field on the
    left and its last on the right. *)
Lemma strip_join p0 mid pl :
  strip is_blank (join "," (p0 :: mid ++ [pl]))
  = join "," (lstrip is_blank p0 :: mid ++ [rstrip is_blank pl]).
Proof.
  unfold strip. rewrite !join_cons by now destruct mid.
  rewrite lstrip_sep by done. destruct mid as [|m mid].
  - simpl. now rewrite rstrip_sep.
  - rewrite !join_snoc by done.
    rewrite app_comm_cons, app_assoc, rstrip_sep by done.
    now rewrite <- app_assoc.
Qed.

Lemma pads_chars (Q : ascii -> Prop) p f :
  pads p f -> Q " " -> Forall Q f -> Forall Q p.
Proof.
  intros (a & b & ->) Hs Hf. unfold pad.
  rewrite !Forall_app. repeat split; (done || now apply Forall_repeat).
Qed.

Lemma pads_pad a b f : pads (pad a b f) f.
Proof. now exists a, b. Qed.

Lemma padded_bare r : Forall2 pads (padded r) (bare r).
Proof.
  induction r as [|x r IH]; [constructor|]. simpl. constructor; [|done].
  apply pads_pad.
Qed.

Lemma Forall2_pads_chars (Q : ascii -> Prop) ps fs :
  Forall2 pads ps fs -> Q " " -> Forall (Forall Q) fs -> Forall (Forall Q) ps.
Proof.
  induction 1 as [|p f ps fs Hp _ IH]; intros Hs Hfs; [constructor|].
  apply Forall_cons in Hfs as [Hf Hfs]. constructor; [|auto].
  now apply (pads_chars Q p f).
Qed.

(** A line of padded fields splits into fields that are the row's own
    with blanks around them. *)
Lemma split_line_padded r :
  fields_row (bare r) = true ->
  exists r', split_line (join "," (padded r)) = r' /\ r' <> [] /\
    Forall2 pads r' (bare r) /\
    forallb no_newline (join "," (padded r)) = true.
Proof.
  intros Hr. pose proof (fields_row_length _ Hr) as Hlen.
  pose proof (fields_row_of _ Hr) as Hrow.
  assert (Hfields : forall Q : ascii -> Prop,
            (forall c, field_char c = true -> Q c) -> Forall (Forall Q) (bare r))
    by (intros Q HQ; now apply (row_fields_Forall (length (bare r)))).
  assert (Hchars : forall Q : ascii -> Prop,
            (forall c, field_char c = true -> Q c) -> Q " " -> Q "," ->
            Forall Q (join "," (padded r))).
  { intros Q HQ Hs Hc. apply join_Forall; [done|].
    apply (Forall2_pads_chars Q _ (bare r)); auto using padded_bare. }
  assert (Hnl : forallb no_newline (join "," (padded r)) = true).
  { apply forallb_of_Forall. apply Hchars; [|done|done].
    intros c Hc. apply field_char_inv in Hc as (_ & _ & _ & H2 & H3).
    unfold no_newline. now rewrite H2, H3. }
  destruct r as [|x0 r]; [simpl in Hlen; lia|].
  destruct r as [|xl r _] using rev_ind; [simpl in Hlen; lia|].
  set (p0 := lstrip is_blank (pad x0.1.1 x0.2 x0.1.2)).
  set (pl := rstrip is_blank (pad xl.1.1 xl.2 xl.1.2)).
  assert (Hfs : forallb field (bare (x0 :: r ++ [xl])) = true).
  { unfold fields_row in Hr. now apply andb_prop in Hr as [_ Hr]. }
  assert (Hf0 : field x0.1.2 = true).
  { simpl in Hfs. now apply andb_prop in Hfs as [H _]. }
  assert (Hfl : field xl.1.2 = true).
  { apply (forallb_lookup field (bare (x0 :: r ++ [xl])) (S (length r)));
      [done|]. unfold bare. rewrite list_lookup_fmap. simpl.
    now rewrite lookup_app_r, Nat.sub_diag by lia. }
  assert (Hpads : Forall2 pads (p0 :: padded r ++ [pl]) (bare (x0 :: r ++ [xl]))).
  { unfold bare. rewrite fmap_cons, fmap_app. constructor.
    - apply pads_lstrip; [apply pads_pad|done].
    - apply Forall2_app; [apply padded_bare|].
      constructor; [|constructor]. apply pads_rstrip; [apply pads_pad|done]. }
  exists (p0 :: padded r ++ [pl]). split; [|split; [done|split; [done|done]]].
  assert (Hpad : padded (x0 :: r ++ [xl])
                 = pad x0.1.1 x0.2 x0.1.2 :: padded r ++ [pad xl.1.1 xl.2 xl.1.2])
    by (unfold padded; simpl; now rewrite map_app).
  unfold split_line. rewrite before_none.
  - rewrite Hpad.
    change (fun c => bool_decide (c ∈ [" "; CR; LF])) with is_blank.
    rewrite strip_join. fold p0 pl.
    rewrite join_cons by now destruct (padded r).
    destruct (p0 ++ "," :: join "," (padded r ++ [pl])) eqn:E;
      [now destruct p0|].
    rewrite <- E, <- join_cons by now destruct (padded r).
    apply split_join; [done|].
    apply (Forall2_pads_chars _ _ _ Hpads); [done|].
    apply Hfields. intros c Hc. now apply field_char_inv in Hc.
  - apply Hchars; [|done|done]. intros c Hc. now apply field_char_inv in Hc.
Qed.

Lemma values_of_padded (prows : list (list (nat * text * nat))) :
  forallb fields_row (bare <$> prows) = true ->
  exists rows', values_of (map (join ",") (padded <$> prows)) = rows' /\
    Forall2 (Forall2 pads) rows' (bare <$> prows) /\
    Forall (fun l => forallb no_newline l = true)
      (map (join ",") (padded <$> prows)).
Proof.
  induction prows as [|r prows IH]; [by exists []|].
  rewrite !fmap_cons. simpl forallb. intros H.
  apply andb_prop in H as [Hr Hrows].
  destruct (IH Hrows) as (rows' & Hv & Hp & Hnl).
  destruct (split_line_padded r Hr) as (r' & Hs & Hne & Hpr & Hnlr).
  exists (r' :: rows').
  change (map (join ",") (padded r :: (padded <$> prows)))
    with (join "," (padded r) :: map (join ",") (padded <$> prows)).
  split; [|split; now constructor].
  rewrite (values_of_cons_row _ _ r' Hs Hne). f_equal. exact Hv.
Qed.

Lemma array_of_pads rows' rows :
  Forall2 (Forall2 pads) rows' rows -> array_of rows' = array_of rows.
Proof.
  intros H. unfold array_of.
  assert (Hmap : map (map loose_call) rows' = map (map loose_call) rows).
  { induction H as [|r' r rows' rows Hr _ IH]; [done|]. simpl. f_equal; [|done].
    clear -Hr. induction Hr as [|p f r' r Hp _ IH]; [done|]. simpl.
    f_equal; [now apply loose_call_pads|done]. }
  assert (Hhd : length (hd [] rows') = length (hd [] rows)).
  { destruct H as [|r' r rows' rows Hr _]; [done|]. simpl.
    now apply Forall2_length in Hr. }
  assert (Hall : forall n,
            forallb (fun v : list text => bool_decide (length v = n)) rows'
            = forallb (fun v : list text => bool_decide (length v = n)) rows).
  { intros n. clear Hmap Hhd.
    induction H as [|r' r rows' rows Hr _ IH]; [done|]. simpl.
    now rewrite IH, (Forall2_length _ _ _ Hr). }
  now rewrite Hmap, Hhd, Hall.
Qed.

End Padding.

(** X12: blanks before and after the fields make no difference: the file
    loads and prints as the file of the bare fields does. *)
Theorem blanks_around_fields w1 w2 header
    (prows : list (list (nat * text * nat))) (fnl : bool) :
  files w1 !! fname = Some (file_text header (padded <$> prows) fnl) ->
  files w2 !! fname = Some (file_text header (bare <$> prows) fnl) ->
  forallb no_newline header = true ->
  forallb fields_row (bare <$> prows) = true ->
  (load w1).1 = (load w2).1 /\ (script w1).1 = (script w2).1 /\
  (stdout w1 = stdout w2 -> stdout (script w1).2 = stdout (script w2).2).
Proof.
  intros Hf1 Hf2 Hh Hrows. apply (same_array w1 w2 _ _ Hf1 Hf2).
  destruct (values_of_padded prows Hrows) as (rows' & Hv & Hp & Hnl).
  rewrite (genfromtxt_fields header _ fnl Hh Hrows).
  rewrite genfromtxt_values, file_text_lines, values_after_header, Hv by done.
  now apply array_of_pads.
Qed.

(** ** The further properties on the sample files *)

Example file_crlf_run :
  script (world_of file_crlf)
  = (Ok table_ex, write (printed_of table_ex) (world_of file_crlf)).
Proof. vm_compute. reflexivity. Qed.

Example file_items_run : (load (world_of file_items)).1 = Ok table_ex.
Proof. vm_compute. reflexivity. Qed.

Example rows_six_run :
  (script (world_of (file_text header_ex rows_six true))).2.(stdout)
  = [ PShape "  Shape of data: " [2; 6]%nat; PInts [0; 1];
      PFloats [S754_finite false 8646911284551352 (-56);
               S754_finite false 6124895493223875 (-54)];
      PFloats [S754_finite false 6755399441055744 (-52);
               S754_finite false 6980579422424269 (-52)];
      PFloats [S754_finite false 7740561859543040 (-44);
               S754_finite false 7761672482796339 (-44)];
      PInts [1; 0] ].
Proof. vm_compute. reflexivity. Qed.

Lemma header_ignored_witness :
  (load (world_of file_ex)).1 = (load (world_of file_data_header)).1 /\
  (script (world_of file_ex)).1 = (script (world_of file_data_header)).1 /\
  (stdout (world_of file_ex) = stdout (world_of file_data_header) ->
   stdout (script (world_of file_ex)).2
   = stdout (script (world_of file_data_header)).2).
Proof.
  apply (header_ignored (world_of file_ex) (world_of file_data_header)
           header_ex (txt "9,9.9,9.9,9.9,9")
           (lines_text [LF] (map (join ",") rows_ex) true));
    reflexivity.
Defined.

Lemma ragged_rows_raise_witness :
  script (world_of (file_text header_ex rows_ragged true))
  = (Raise ValueError, world_of (file_text header_ex rows_ragged true)) <->
  exists i r, rows_ragged !! i = Some r /\ length r <> length (hd [] rows_ragged).
Proof.
  apply (ragged_rows_raise (world_of (file_text header_ex rows_ragged true))
           header_ex rows_ragged true); reflexivity.
Defined.

Lemma few_columns_raise_witness :
  script (world_of (file_text header_ex rows_four true))
  = (Raise IndexError,
     write [PShape "  Shape of data: " [2%nat; 4%nat]]
       (world_of (file_text header_ex rows_four true))) /\
  load (world_of (file_text header_ex rows_four true))
  = (Raise IndexError, world_of (file_text header_ex rows_four true)).
Proof.
  apply (few_columns_raise (world_of (file_text header_ex rows_four true))
           header_ex rows_four true 4);
    [reflexivity|reflexivity|reflexivity|lia|simpl; lia].
Defined.

Lemma extra_columns_ignored_witness :
  exists tb tb5,
    load (world_of (file_text header_ex rows_six true))
    = (Ok tb, world_of (file_text header_ex rows_six true)) /\
    load (world_of (file_text header_ex (take 5 <$> rows_six) true))
    = (Ok tb5, world_of (file_text header_ex (take 5 <$> rows_six) true)) /\
    index tb = index tb5 /\ P tb = P tb5 /\ R tb = R tb5 /\
    freq tb = freq tb5 /\ type tb = type tb5 /\
    shape (data tb) = [2%nat; 6%nat] /\ shape (data tb5) = [2%nat; 5%nat].
Proof.
  apply (extra_columns_ignored
           (world_of (file_text header_ex rows_six true))
           (world_of (file_text header_ex (take 5 <$> rows_six) true))
           header_ex rows_six true 6);
    [reflexivity|reflexivity|reflexivity|reflexivity|lia|simpl; lia].
Defined.

Lemma comments_and_blanks_skipped_witness :
  (load (world_of file_items)).1 = (load (world_of file_ex)).1 /\
  (script (world_of file_items)).1 = (script (world_of file_ex)).1 /\
  (stdout (world_of file_items) = stdout (world_of file_ex) ->
   stdout (script (world_of file_items)).2
   = stdout (script (world_of file_ex)).2).
Proof.
  apply (comments_and_blanks_skipped (world_of file_items) (world_of file_ex)
           header_ex items_ex true true); reflexivity.
Defined.

Lemma line_endings_same_witness :
  (load (world_of file_crlf)).1 = (load (world_of file_ex)).1 /\
  (script (world_of file_crlf)).1 = (script (world_of file_ex)).1 /\
  (stdout (world_of file_crlf) = stdout (world_of file_ex) ->
   stdout (script (world_of file_crlf)).2
   = stdout (script (world_of file_ex)).2).
Proof.
  apply (line_endings_same (world_of file_crlf) (world_of file_ex)
           [CR; LF] lines_ex true);
    [reflexivity|reflexivity|reflexivity|].
  repeat constructor.
Defined.

Lemma loaded_matrix_shape_witness :
  exists m n, data table_ex = Arr2 m /\ rowCount table_ex = length m /\
    (2 <= rowCount table_ex)%nat /\ (5 <= n)%nat /\
    Forall (fun r => length r = n) m /\
    shape (data table_ex) = [rowCount table_ex; n].
Proof.
  apply (loaded_matrix_shape (world_of file_ex) table_ex (world_of file_ex)).
  vm_compute. reflexivity.
Defined.

Lemma loaded_rows_aligned_witness :
  exists m, data table_ex = Arr2 m /\
    forall i r, m !! i = Some r ->
      exists x0 x1 x2 x3 x4 rest, r = x0 :: x1 :: x2 :: x3 :: x4 :: rest /\
        index table_ex !! i = Some (astype_int x0) /\
        P table_ex !! i = Some x1 /\ R table_ex !! i = Some x2 /\
        freq table_ex !! i = Some x3 /\
        type table_ex !! i = Some (astype_int x4).
Proof.
  apply (loaded_rows_aligned (world_of file_ex) table_ex (world_of file_ex)).
  vm_compute. reflexivity.
Defined.

Lemma blanks_around_fields_witness :
  (load (world_of (file_text header_ex (padded <$> rows_padded) true))).1
  = (load (world_of (file_text header_ex (bare <$> rows_padded) true))).1 /\
  (script (world_of (file_text header_ex (padded <$> rows_padded) true))).1
  = (script (world_of (file_text header_ex (bare <$> rows_padded) true))).1 /\
  (stdout (world_of (file_text header_ex (padded <$> rows_padded) true))
   = stdout (world_of (file_text header_ex (bare <$> rows_padded) true)) ->
   stdout (script (world_of (file_text header_ex (padded <$> rows_padded) true))).2
   = stdout (script (world_of (file_text header_ex (bare <$> rows_padded) true))).2).
Proof.
  apply (blanks_around_fields
           (world_of (file_text header_ex (padded <$> rows_padded) true))
           (world_of (file_text header_ex (bare <$> rows_padded) true))
           header_ex rows_padded true); reflexivity.
Defined.

Example file_padded_text :
  file_text header_ex (padded <$> rows_padded) true
  = txt "idx,P,R,nu,type" ++ [LF]
    ++ txt " 0, 0.12 ,1.50  , 440.0, 1 " ++ [LF]
    ++ txt "1,  0.34, 1.55, 441.2, 0   " ++ [LF].
Proof. reflexivity. Qed.

(** ** When the script succeeds *)

Lemma fields_rows_of n (rows : list (list text)) :
  forallb fields_row rows = true -> Forall (fun r => length r = n) rows ->
  forallb (row_of n) rows = true.
Proof.
  intros H Hn. induction Hn as [|r rows Hr _ IH]; [done|]. simpl in *.
  apply andb_prop in H as [Hf H]. rewrite IH by done. rewrite andb_true_r.
  unfold fields_row, row_of in *. apply andb_prop in Hf as [_ ->].
  now rewrite bool_decide_eq_true_2.
Qed.

Lemma fields_rows_nonempty (rows : list (list text)) :
  forallb fields_row rows = true -> Forall (fun r => r <> []) rows.
Proof.
  induction rows as [|r rows IH]; [constructor|]. simpl. intros H.
  apply andb_prop in H as [Hr H]. constructor; [|auto].
  apply fields_row_length in Hr. destruct r; simpl in *; [lia|done].
Qed.

(** X13: on a file of rows of two or more fields each, [load] returns a
    table exactly where there are two rows or more and all rows have one
    number of fields, five or more. *)
Theorem load_succeeds_iff w header (rows : list (list text)) (fnl : bool) :
  files w !! fname = Some (file_text header rows fnl) ->
  forallb no_newline header = true -> forallb fields_row rows = true ->
  (exists tb, load w = (Ok tb, w)) <->
  (2 <= length rows)%nat /\
  exists n, (5 <= n)%nat /\ Forall (fun r => length r = n) rows.
Proof.
  intros Hf Hh Hrows. split.
  - intros [tb H].
    apply load_inv in H as (content & m & Hf' & Hg & Hm & _ & _).
    rewrite Hf in Hf'. injection Hf' as <-.
    rewrite (genfromtxt_fields header rows fnl Hh Hrows) in Hg.
    apply array_of_inv in Hg as (-> & Hlen & _ & Hrect);
      [|now apply fields_rows_nonempty].
    rewrite length_map in Hlen. split; [done|].
    exists (length (hd [] (map (map loose_call) rows))). split; [done|].
    apply Forall_fmap in Hrect. eapply Forall_impl; [exact Hrect|].
    intros r Hr. simpl in Hr. now rewrite length_map in Hr.
  - intros (Hlen & n & Hn & Hall).
    pose proof (fields_rows_of n rows Hrows Hall) as Hrows'.
    pose proof (genfromtxt_rows n header rows fnl ltac:(lia) Hh Hrows') as Hg.
    assert (Hhd : length (hd [] (map (map loose_call) rows)) = n).
    { destruct Hall as [|r rows' Hr _]; [simpl in Hlen; lia|]. simpl.
      now rewrite length_map. }
    rewrite squeeze_matrix in Hg by (rewrite ?length_map; lia).
    eexists. apply (load_matrix w _ _ Hf Hg). lia.
Qed.

(** X14: whatever the file, where the script succeeds each of the five
    slices it prints has as many elements as there are rows, up to
    three. *)
Theorem printed_slice_lengths w tb w' :
  script w = (Ok tb, w') ->
  exists a p r f b,
    w' = write [ PShape "  Shape of data: " (shape (data tb));
                 PInts a; PFloats p; PFloats r; PFloats f; PInts b ] w /\
    length a = Nat.min 3 (rowCount tb) /\ length p = Nat.min 3 (rowCount tb) /\
    length r = Nat.min 3 (rowCount tb) /\ length f = Nat.min 3 (rowCount tb) /\
    length b = Nat.min 3 (rowCount tb).
Proof.
  intros H. destruct (files w !! fname) as [content|] eqn:Hf.
  - destruct (script_with_file w content Hf)
      as [(_ & Hs & _)|[(a & _ & _ & Hs & _)|(m & _ & _ & Hs & _)]];
      rewrite Hs in H; try discriminate.
    injection H as <- <-. unfold printed_of.
    do 5 eexists. split; [reflexivity|]. unfold rowCount, columns_of.
    cbn [data index P R freq type shape hd].
    rewrite !length_take, !length_map, !column_length. lia.
  - unfold script, bind, np_genfromtxt in H. rewrite Hf in H. discriminate.
Qed.

Lemma load_succeeds_iff_witness :
  (exists tb, load (world_of file_ex) = (Ok tb, world_of file_ex)) <->
  (2 <= length rows_ex)%nat /\
  exists n, (5 <= n)%nat /\ Forall (fun r => length r = n) rows_ex.
Proof.
  apply (load_succeeds_iff (world_of file_ex) header_ex rows_ex true);
    reflexivity.
Defined.

Lemma printed_slice_lengths_witness :
  exists a p r f b,
    write (printed_of table_ex) (world_of file_ex)
    = write [ PShape "  Shape of data: " (shape (data table_ex));
              PInts a; PFloats p; PFloats r; PFloats f; PInts b ]
        (world_of file_ex) /\
    length a = Nat.min 3 (rowCount table_ex) /\
    length p = Nat.min 3 (rowCount table_ex) /\
    length r = Nat.min 3 (rowCount table_ex) /\
    length f = Nat.min 3 (rowCount table_ex) /\
    length b = Nat.min 3 (rowCount table_ex).
Proof.
  apply (printed_slice_lengths (world_of file_ex) table_ex
           (write (printed_of table_ex) (world_of file_ex))).
  vm_compute. reflexivity.
Defined.

(** ** One-row files and literals on the sample files *)

Lemma load_twice_witness :
  exists tb,
    (tb1 <- load ;; tb2 <- load ;; ret (tb1, tb2)) (world_of file_ex)
    = (Ok (tb, tb), world_of file_ex) /\
    load (write [PInts [7]] (world_of file_ex))
    = (Ok tb, write [PInts [7]] (world_of file_ex)) /\
    rowCount tb = 4%nat /\
    (forall i, (i < 4)%nat ->
       P tb !! i = cell rows_ex i 1 /\ R tb !! i = cell rows_ex i 2 /\
       freq tb !! i = cell rows_ex i 3) /\
    (forall w0, (load (load w0).2).1 = (load w0).1) /\
    forall w1 w2, files w1 !! fname = files w2 !! fname ->
                  (load w1).1 = (load w2).1.
Proof.
  apply (load_twice (world_of file_ex) (write [PInts [7]] (world_of file_ex))
           header_ex rows_ex true);
    [reflexivity|reflexivity|reflexivity|reflexivity|simpl; lia].
Defined.

(** C10 fails on a file of one row: column 0 holds 0.5, no integer, and
    [load] raises [IndexError] instead of storing 0. *)
Lemma load_one_row_fraction_raises :
  file_frac_one = txt "idx,P,R,nu,type" ++ [LF]
                  ++ txt "0.5,0.12,1.50,440.0,1.9" ++ [LF] /\
  cell (take 1 rows_frac) 0 0 = Some (S754_finite false 4503599627370496 (-53)) /\
  load (world_of file_frac_one) = (Raise IndexError, world_of file_frac_one).
Proof. vm_compute. auto. Qed.

(** The fields of the end-to-end example are decimal literals. *)
Example lits_ex_render :
  map (map render) lits_ex = rows_ex /\
  forallb (forallb wf_literal) lits_ex = true.
Proof. now vm_compute. Qed.

(** [-12.5E-3]: its text, its value, and the binary64 [float] returns. *)
Example lit_sci_value :
  render lit_sci = txt "-12.5E-3" /\
  (literal_value lit_sci == - (1 # 80))%Q /\
  py_float (render lit_sci)
  = Some (S754_finite true 7205759403792794 (-59)).
Proof. now vm_compute. Qed.

(** The phase of the first row of the example: [0.12] rounded. *)
Example phase_ex_rounded :
  (magnitude (lit_dec [0]%nat [1; 2]%nat) == 3 # 25)%Q /\
  exists x, P table_ex !! 0%nat = Some x /\
    rounded false (magnitude (lit_dec [0]%nat [1; 2]%nat)) x.
Proof.
  split; [now vm_compute|].
  destruct (literal_rounded (lit_dec [0]%nat [1; 2]%nat) eq_refl)
    as (x & Hx & Hr).
  exists x. split; [|exact Hr]. rewrite <- Hx. reflexivity.
Qed.

(** C4 fails on a well-formed file of one row: its five fields are
    decimal literals, and [load] raises [IndexError] instead of building
    the columns. *)
Lemma load_one_row_columns_raises :
  file_one = txt "idx,P,R,nu,type" ++ [LF]
             ++ txt "0,0.12,1.50,440.0,1" ++ [LF] /\
  map render [lit_nat [0]; lit_dec [0] [1; 2]; lit_dec [1] [5; 0];
              lit_dec [4; 4; 0] [0]; lit_nat [1]]%nat = row0 /\
  forallb numeric_row [row0] = true /\
  load (world_of file_one) = (Raise IndexError, world_of file_one).
Proof. vm_compute. auto. Qed.
